(** * node-progress: a shallow embedding of [lib/node-progress.js]

    The development follows the source file top to bottom: the JavaScript
    values the bar computes with (numbers, strings), the unit table
    ([ProgressBar.mkUnits]), the constructor, and the methods [tick],
    [render], [estimate], [update] and [terminate].  The statements about
    them come after all definitions. *)

From Stdlib Require Import ZArith QArith Qround Qabs List String Ascii Bool Lia.
From Stdlib Require Import DecimalString Lqa Sorted Permutation.
Import ListNotations.

(** ** JavaScript numbers

    A JavaScript number is a binary64 float.  The model keeps the three
    special values apart and represents every finite value by the exact
    rational it denotes, kept in lowest terms: arithmetic on finite values is
    exact (no rounding, no overflow to infinity) and there is a single zero,
    which behaves as [+0].  Division by zero, [Infinity - Infinity],
    [0 * Infinity] and comparisons with [NaN] behave as IEEE 754 says. *)

Module JSNumber.

Inductive num : Type :=
| NaN
| PInf
| NInf
| Fin (q : Q).

Definition of_Z (z : Z) : num := Fin (inject_Z z).
Definition of_nat (n : nat) : num := of_Z (Z.of_nat n).

(** Sign of a value that is not [NaN]: -1, 0 or 1. *)
Definition sign (a : num) : Z :=
  match a with
  | NaN => 0
  | PInf => 1
  | NInf => -1
  | Fin q => Z.sgn (Qnum q)
  end.

(** The infinity of a given sign; a zero sign is the invalid operation. *)
Definition inf_of_sign (s : Z) : num :=
  match s with
  | Z0 => NaN
  | Zpos _ => PInf
  | Zneg _ => NInf
  end.

Definition neg (a : num) : num :=
  match a with
  | NaN => NaN
  | PInf => NInf
  | NInf => PInf
  | Fin q => Fin (Qred (- q))
  end.

Definition add (a b : num) : num :=
  match a, b with
  | NaN, _ | _, NaN => NaN
  | PInf, NInf | NInf, PInf => NaN
  | PInf, _ | _, PInf => PInf
  | NInf, _ | _, NInf => NInf
  | Fin x, Fin y => Fin (Qred (x + y))
  end.

Definition sub (a b : num) : num := add a (neg b).

Definition mul (a b : num) : num :=
  match a, b with
  | NaN, _ | _, NaN => NaN
  | Fin x, Fin y => Fin (Qred (x * y))
  | _, _ => inf_of_sign (sign a * sign b)
  end.

Definition div (a b : num) : num :=
  match a, b with
  | NaN, _ | _, NaN => NaN
  | Fin x, Fin y =>
      if Qeq_bool y 0 then inf_of_sign (sign a) else Fin (Qred (x / y))
  | Fin _, _ => Fin 0
  | _, Fin y => if (Qnum y <? 0)%Z then neg a else a
  | _, _ => NaN
  end.

(** [a < b]; false as soon as one side is [NaN]. *)
Definition ltb (a b : num) : bool :=
  match a, b with
  | NaN, _ | _, NaN => false
  | _, NInf => false
  | NInf, _ => true
  | PInf, _ => false
  | _, PInf => true
  | Fin x, Fin y => negb (Qle_bool y x)
  end.

(** [a == b] and [a === b] on two numbers. *)
Definition eqb (a b : num) : bool :=
  match a, b with
  | PInf, PInf | NInf, NInf => true
  | Fin x, Fin y => Qeq_bool x y
  | _, _ => false
  end.

(** [a >= b] and [a <= b]; false as soon as one side is [NaN]. *)
Definition geb (a b : num) : bool := ltb b a || eqb a b.
Definition leb (a b : num) : bool := geb b a.

Definition isNaN (a : num) : bool :=
  match a with NaN => true | _ => false end.

Definition isFinite (a : num) : bool :=
  match a with Fin _ => true | _ => false end.

(** ToBoolean on a number: [0] and [NaN] are falsy. *)
Definition truthy (a : num) : bool :=
  match a with
  | NaN => false
  | Fin q => negb (Qeq_bool q 0)
  | _ => true
  end.

Definition Math_max (a b : num) : num :=
  if isNaN a || isNaN b then NaN else if ltb a b then b else a.

Definition Math_min (a b : num) : num :=
  if isNaN a || isNaN b then NaN else if ltb b a then b else a.

Definition Math_floor (a : num) : num :=
  match a with
  | Fin q => of_Z (Qfloor q)
  | _ => a
  end.

(** [Math.round] rounds to the nearest integer, ties towards +Infinity. *)
Definition Math_round (a : num) : num :=
  match a with
  | Fin q => of_Z (Qfloor (q + (1 # 2)))
  | _ => a
  end.

(** The integer an integral finite number denotes. *)
Definition to_integer (a : num) : option Z :=
  match a with
  | Fin q => if Qeq_bool q (inject_Z (Qfloor q)) then Some (Qfloor q) else None
  | _ => None
  end.

End JSNumber.

Import JSNumber.

Declare Scope num_scope.
Delimit Scope num_scope with num.
Bind Scope num_scope with num.
Infix "+" := add : num_scope.
Infix "-" := sub : num_scope.
Infix "*" := mul : num_scope.
Infix "/" := div : num_scope.
Infix "<?" := ltb : num_scope.
Infix ">=?" := geb : num_scope.
Infix "=?" := eqb : num_scope.

Arguments add : simpl never.
Arguments sub : simpl never.
Arguments mul : simpl never.
Arguments div : simpl never.
Arguments ltb : simpl never.
Arguments eqb : simpl never.
Arguments geb : simpl never.
Arguments leb : simpl never.
Arguments of_Z : simpl never.

(** ** JavaScript strings

    Strings are sequences of code units; the model uses Rocq strings, one
    character per code unit. *)

Module JSString.

Open Scope string_scope.

Fixpoint drop (n : nat) (s : string) : string :=
  match n, s with
  | O, _ => s
  | S n', String _ s' => drop n' s'
  | S _, EmptyString => EmptyString
  end.

(** [find pat s] splits [s] around the first occurrence of [pat]: the part
    before the match and the part after it. *)
Fixpoint find (pat s : string) : option (string * string) :=
  if prefix pat s then Some (EmptyString, drop (String.length pat) s)
  else
    match s with
    | EmptyString => None
    | String c s' =>
        match find pat s' with
        | Some (before, after) => Some (String c before, after)
        | None => None
        end
    end.

(** GetSubstitution for a string pattern (no capture groups): in the
    replacement text [$$] stands for a dollar sign, [$&] for the matched
    text, [$`] and [$'] for the text before and after the match; any other
    [$] is literal. *)
Fixpoint GetSubstitution (matched before after repl : string) : string :=
  match repl with
  | EmptyString => EmptyString
  | String c rest =>
      if Ascii.eqb c "$" then
        match rest with
        | String d rest' =>
            if Ascii.eqb d "$" then
              String "$" (GetSubstitution matched before after rest')
            else if Ascii.eqb d "&" then
              matched ++ GetSubstitution matched before after rest'
            else if Ascii.eqb d "`" then
              before ++ GetSubstitution matched before after rest'
            else if Ascii.eqb d "'" then
              after ++ GetSubstitution matched before after rest'
            else String c (GetSubstitution matched before after rest)
        | EmptyString => String c EmptyString
        end
      else String c (GetSubstitution matched before after rest)
  end.

(** [s.replace(pat, repl)] with a string pattern: only the first occurrence
    is replaced. *)
Definition replace (pat repl s : string) : string :=
  match find pat s with
  | Some (before, after) =>
      before ++ GetSubstitution pat before after repl ++ after
  | None => s
  end.

(** [n] copies of [s] in a row. *)
Fixpoint repeat (s : string) (n : nat) : string :=
  match n with
  | O => EmptyString
  | S n' => s ++ repeat s n'
  end.

(** [Array(n).join(sep)]: [Array(n)] needs [n] to be an integer in
    [0, 2^32 - 1] and throws a RangeError otherwise ([None]); joining [n]
    empty slots gives [n - 1] separators. *)
Definition Array_join (n : num) (sep : string) : option string :=
  match to_integer n with
  | Some z =>
      if ((0 <=? z) && (z <=? 4294967295))%Z
      then Some (repeat sep (Z.to_nat (z - 1)))
      else None
  | None => None
  end.

Definition decimal (z : Z) : string := NilZero.string_of_int (Z.to_int z).

Definition length_num (s : string) : num := of_nat (String.length s).

End JSString.

Import JSString.

(** ** The unit table: [ProgressBar.defaultUnits] and [ProgressBar.mkUnits]

    An object that maps suffixes to unit values is the list of its own
    enumerable properties in the order [Object.keys] yields them. *)

Module UnitTable.

Open Scope string_scope.

Definition UnitMap : Type := list (string * num).

Record UnitEntry : Type := { label : string; value : num }.

Record Units : Type := { labels : list string; values : list num }.

Definition defaultUnits : UnitMap :=
  [("h", of_Z 3600); ("m", of_Z 60); ("s", of_Z 1)].

(** The comparator handed to [sort]: [a.value - b.value]. *)
Definition compare_entries (a b : UnitEntry) : num := (value a - value b)%num.

(** [Array.prototype.sort] is stable: [a] moves behind [b] only when the
    comparator is positive.  Insertion sort is the reference stable sort. *)
Fixpoint insert (a : UnitEntry) (l : list UnitEntry) : list UnitEntry :=
  match l with
  | [] => [a]
  | b :: l' =>
      if (of_Z 0 <? compare_entries a b)%num then b :: insert a l' else a :: l
  end.

Definition sort (l : list UnitEntry) : list UnitEntry := fold_right insert [] l.

Definition mkUnits (obj : UnitMap) : Units :=
  let arr := sort (map (fun kv => {| label := fst kv; value := snd kv |}) obj) in
  {| labels := map label arr; values := map value arr |}.

End UnitTable.

Import UnitTable.

(** ** The bar, its host and the effects of its methods *)

Open Scope string_scope.

(** The output stream as far as the bar looks at it: [isTTY] (as a boolean)
    and [columns]. *)
Record Stream : Type := { isTTY : bool; columns : num }.

(** A tokens object: its properties in enumeration order. *)
Definition Tokens : Type := list (string * string).

(** The completion callback: the constructor's no-op default or a function
    of the host, known by a name. *)
Inductive Callback : Type :=
| noop
| host_function (id : nat).

(** The fields of a [ProgressBar] instance.  [fmt] is [None] when the first
    argument of the constructor was not a string; [start] and
    [renderThrottleTimeout] are [None] while they are [undefined] or [null];
    [complete] is the flag [this.complete], [chars_complete] and
    [chars_incomplete] are the two entries of [this.chars]. *)
Record ProgressBar : Type := {
  stream : Stream;
  fmt : option string;
  curr : num;
  total : num;
  units : Units;
  width : num;
  clear : bool;
  chars_complete : string;
  chars_incomplete : string;
  renderThrottle : num;
  callback : Callback;
  tokens : Tokens;
  lastDraw : string;
  start : option num;
  renderThrottleTimeout : option nat;
  complete : bool
}.

Definition set_curr (v : num) (b : ProgressBar) : ProgressBar :=
  {| stream := stream b; fmt := fmt b; curr := v; total := total b;
     units := units b; width := width b; clear := clear b;
     chars_complete := chars_complete b;
     chars_incomplete := chars_incomplete b;
     renderThrottle := renderThrottle b; callback := callback b;
     tokens := tokens b; lastDraw := lastDraw b; start := start b;
     renderThrottleTimeout := renderThrottleTimeout b;
     complete := complete b |}.

Definition set_tokens (v : Tokens) (b : ProgressBar) : ProgressBar :=
  {| stream := stream b; fmt := fmt b; curr := curr b; total := total b;
     units := units b; width := width b; clear := clear b;
     chars_complete := chars_complete b;
     chars_incomplete := chars_incomplete b;
     renderThrottle := renderThrottle b; callback := callback b;
     tokens := v; lastDraw := lastDraw b; start := start b;
     renderThrottleTimeout := renderThrottleTimeout b;
     complete := complete b |}.

Definition set_lastDraw (v : string) (b : ProgressBar) : ProgressBar :=
  {| stream := stream b; fmt := fmt b; curr := curr b; total := total b;
     units := units b; width := width b; clear := clear b;
     chars_complete := chars_complete b;
     chars_incomplete := chars_incomplete b;
     renderThrottle := renderThrottle b; callback := callback b;
     tokens := tokens b; lastDraw := v; start := start b;
     renderThrottleTimeout := renderThrottleTimeout b;
     complete := complete b |}.

Definition set_start (v : option num) (b : ProgressBar) : ProgressBar :=
  {| stream := stream b; fmt := fmt b; curr := curr b; total := total b;
     units := units b; width := width b; clear := clear b;
     chars_complete := chars_complete b;
     chars_incomplete := chars_incomplete b;
     renderThrottle := renderThrottle b; callback := callback b;
     tokens := tokens b; lastDraw := lastDraw b; start := v;
     renderThrottleTimeout := renderThrottleTimeout b;
     complete := complete b |}.

Definition set_renderThrottleTimeout (v : option nat) (b : ProgressBar)
  : ProgressBar :=
  {| stream := stream b; fmt := fmt b; curr := curr b; total := total b;
     units := units b; width := width b; clear := clear b;
     chars_complete := chars_complete b;
     chars_incomplete := chars_incomplete b;
     renderThrottle := renderThrottle b; callback := callback b;
     tokens := tokens b; lastDraw := lastDraw b; start := start b;
     renderThrottleTimeout := v;
     complete := complete b |}.

Definition set_complete (v : bool) (b : ProgressBar) : ProgressBar :=
  {| stream := stream b; fmt := fmt b; curr := curr b; total := total b;
     units := units b; width := width b; clear := clear b;
     chars_complete := chars_complete b;
     chars_incomplete := chars_incomplete b;
     renderThrottle := renderThrottle b; callback := callback b;
     tokens := tokens b; lastDraw := lastDraw b; start := start b;
     renderThrottleTimeout := renderThrottleTimeout b;
     complete := v |}.

(** What a method call does that the host can observe: the calls on the
    stream, and the entries into [terminate] and into the completion
    callback (recorded so that they can be counted). *)
Inductive Event : Type :=
| cursorTo (x : Z)
| write (s : string)
| clearLine (dir : option Z)
| enter_terminate
| enter_callback (cb : Callback).

Inductive Exn : Type :=
| TypeError
| RangeError
| Error (msg : string).

(** The bar together with the part of the host it acts on: the log of
    events so far, the clock [new Date] reads (milliseconds), the timers that
    are set and not yet fired or cleared (handle and delay), and the next
    fresh timer handle. *)
Record World : Type := {
  this : ProgressBar;
  log : list Event;
  clock : num;
  timers : list (nat * num);
  next_timer : nat
}.

(** A method either returns or throws; the mutations made before a throw
    stay. *)
Inductive Result (A : Type) : Type :=
| Return (a : A) (w : World)
| Throw (e : Exn) (w : World).

Arguments Return {A} a w.
Arguments Throw {A} e w.

Definition M (A : Type) : Type := World -> Result A.

Definition ret {A : Type} (a : A) : M A := fun w => Return a w.

Definition bind {A B : Type} (m : M A) (k : A -> M B) : M B :=
  fun w =>
    match m w with
    | Return a w' => k a w'
    | Throw e w' => Throw e w'
    end.

Definition throw {A : Type} (e : Exn) : M A := fun w => Throw e w.

Notation "x <- m ;; k" := (bind m (fun x => k))
  (at level 61, m at next level, right associativity).
Notation "m ;; k" := (bind m (fun _ => k))
  (at level 61, right associativity).

Definition get_this : M ProgressBar := fun w => Return (this w) w.

Definition modify_this (f : ProgressBar -> ProgressBar) : M unit :=
  fun w =>
    Return tt {| this := f (this w); log := log w; clock := clock w;
                 timers := timers w; next_timer := next_timer w |}.

Definition emit (e : Event) : M unit :=
  fun w =>
    Return tt {| this := this w; log := log w ++ [e]; clock := clock w;
                 timers := timers w; next_timer := next_timer w |}.

(** [new Date], used as a number of milliseconds. *)
Definition new_Date : M num := fun w => Return (clock w) w.

(** [setTimeout(this.render.bind(this), delay)]: the handle is fresh and
    truthy. *)
Definition setTimeout (delay : num) : M nat :=
  fun w =>
    Return (next_timer w)
      {| this := this w; log := log w; clock := clock w;
         timers := timers w ++ [(next_timer w, delay)];
         next_timer := S (next_timer w) |}.

(** [clearTimeout(handle)]; nothing happens for [undefined] or [null]. *)
Definition clearTimeout (handle : option nat) : M unit :=
  fun w =>
    match handle with
    | None => Return tt w
    | Some h =>
        Return tt
          {| this := this w; log := log w; clock := clock w;
             timers := filter (fun t => negb (Nat.eqb (fst t) h)) (timers w);
             next_timer := next_timer w |}
    end.

(** The final state of a call, whether it returned or threw. *)
Definition world_of {A : Type} (r : Result A) : World :=
  match r with
  | Return _ w => w
  | Throw _ w => w
  end.

Definition returned {A : Type} (r : Result A) : bool :=
  match r with
  | Return _ _ => true
  | Throw _ _ => false
  end.

(** ** The constructor *)

(** An options object, by what the constructor reads from it.  [o_total] is
    [Some n] exactly when [typeof options.total] is ['number']; [o_stream],
    [o_units], [o_callback] are [None] when the property is missing or
    falsy; [o_width], [o_renderThrottle], [o_complete] and [o_incomplete]
    are [None] when the property is [undefined]; [o_clear] is the
    truthiness of [options.clear]. *)
Record Options : Type := {
  o_total : option num;
  o_width : option num;
  o_stream : option Stream;
  o_complete : option string;
  o_incomplete : option string;
  o_renderThrottle : option num;
  o_callback : option nat;
  o_clear : bool;
  o_units : option UnitMap
}.

(** The object [{}]. *)
Definition no_options : Options :=
  {| o_total := None; o_width := None; o_stream := None; o_complete := None;
     o_incomplete := None; o_renderThrottle := None; o_callback := None;
     o_clear := false; o_units := None |}.

(** The second argument of the constructor: [undefined], [null], a number,
    an object (or function), or another primitive (a boolean or a string),
    on which every property the constructor reads is [undefined]. *)
Inductive Arg : Type :=
| arg_undefined
| arg_null
| arg_number (n : num)
| arg_object (o : Options)
| arg_primitive.

(** [x || d] on an optional number and on an optional string. *)
Definition num_or (x : option num) (d : num) : num :=
  match x with
  | Some n => if truthy n then n else d
  | None => d
  end.

Definition string_or (x : option string) (d : string) : string :=
  match x with
  | Some EmptyString => d
  | Some s => s
  | None => d
  end.

(** The body of the constructor after the argument checks. *)
Definition init (s : Stream) (fmt : option string) (options : Options)
    (total : num) : ProgressBar :=
  {| stream := s;
     fmt := fmt;
     curr := of_Z 0;
     total := total;
     units := mkUnits (match o_units options with
                       | Some u => u
                       | None => [("s", of_Z 1)]
                       end);
     width := num_or (o_width options) total;
     clear := o_clear options;
     chars_complete := string_or (o_complete options) "=";
     chars_incomplete := string_or (o_incomplete options) "-";
     renderThrottle :=
       match o_renderThrottle options with
       | Some n => if (n =? of_Z 0)%num then of_Z 0 else num_or (Some n) (of_Z 16)
       | None => of_Z 16
       end;
     callback := match o_callback options with
                 | Some f => host_function f
                 | None => noop
                 end;
     tokens := [];
     lastDraw := "";
     start := None;
     renderThrottleTimeout := None;
     complete := false |}.

(** [new ProgressBar(fmt, options)].  [process_stderr] is [process.stderr]
    of the host ([None] when it is missing or falsy); [fmt] is [Some] when
    the first argument is a string. *)
Definition new_ProgressBar (process_stderr : option Stream)
    (fmt : option string) (options : Arg) : Exn + ProgressBar :=
  (* this.stream = options.stream || process.stderr *)
  match options with
  | arg_undefined | arg_null => inl TypeError
  | _ =>
      let options_stream :=
        match options with
        | arg_object o => o_stream o
        | _ => None
        end in
      let this_stream :=
        match options_stream with
        | Some s => Some s
        | None => process_stderr
        end in
      match this_stream with
      | None => inl (Error "invalid stream")
      | Some s =>
          match options with
          | arg_number total =>
              inr (init s fmt
                     {| o_total := Some total; o_width := None;
                        o_stream := None; o_complete := None;
                        o_incomplete := None; o_renderThrottle := None;
                        o_callback := None; o_clear := false;
                        o_units := None |}
                     total)
          | _ =>
              let options :=
                match options with
                | arg_object o => o
                | _ => no_options
                end in
              match fmt with
              | None => inl (Error "format required")
              | Some _ =>
                  match o_total options with
                  | None => inl (Error "total required")
                  | Some total => inr (init s fmt options total)
                  end
              end
          end
      end
  end.

(** A stand-in for the host's shortest-decimal printer, for evaluating the
    methods on bars whose counters are integers of magnitude up to 2^53
    (where it is never called). *)
Definition no_decimal : Q -> string := fun _ => "".

(** ** The methods *)

Section Methods.

(** Number::toString on a finite value that is not an integer of magnitude
    up to 2^53: the shortest decimal that reads back as the same binary64
    value (for a larger integer, these digits followed by zeros).  It
    depends on the binary representation, which the rational model does not
    have, so the methods take it from the host.  An integer of magnitude up
    to 2^53 is written with all its digits. *)
Variable shortest_decimal : Q -> string.

Definition Number_toString (x : num) : string :=
  match x with
  | NaN => "NaN"
  | PInf => "Infinity"
  | NInf => "-Infinity"
  | Fin q =>
      match to_integer x with
      | Some z =>
          if (Z.abs z <=? 2 ^ 53)%Z then decimal z else shortest_decimal q
      | None => shortest_decimal q
      end
  end.

(** [x.toFixed(digits)]: the sign is split off, the magnitude is rounded to
    the nearest multiple of [10^-digits] (the larger one on a tie) and
    written with exactly [digits] decimals; values of magnitude 10^21 and
    more, and the special values, are written as [String(x)]. *)
Definition toFixed (digits : nat) (x : num) : string :=
  match x with
  | Fin q =>
      if Qle_bool (inject_Z (10 ^ 21)) (Qabs q) then Number_toString x
      else
        let n := Qfloor (Qabs q * inject_Z (10 ^ Z.of_nat digits) + (1 # 2)) in
        let m := decimal n in
        let m := JSString.repeat "0" (S digits - String.length m) ++ m in
        let k := (String.length m - digits)%nat in
        (if (Qnum q <? 0)%Z then "-" else "")
        ++ substring 0 k m
        ++ match digits with
           | O => ""
           | _ => "." ++ drop k m
           end
  | _ => Number_toString x
  end.

(** ToString on a value that is a string or [undefined]. *)
Definition String_of (v : option string) : string :=
  match v with
  | Some s => s
  | None => "undefined"
  end.

(** [l[i]]; [undefined] outside the list. *)
Definition item {A : Type} (l : list A) (i : Z) : option A :=
  if (i <? 0)%Z then None else nth_error l (Z.to_nat i).

(** The object [estimate] returns: the properties [eta], [value] and
    [suffix], each [None] when the object does not have it (or has it
    [undefined]). *)
Record Estimate : Type := {
  eta : option string;
  value : option string;
  suffix : option string
}.

(** [while (i > 0 && eta < values[i]) i--], as a function of the index the
    loop starts from. *)
Fixpoint walk_down (values : list num) (eta : num) (i : nat) : nat :=
  match i with
  | O => O
  | S j =>
      if (eta <? nth i values NaN)%num then walk_down values eta j else i
  end.

(** [while (i > 0) eta /= values[i--]]. *)
Fixpoint divide_down (values : list num) (eta : num) (i : nat) : num :=
  match i with
  | O => eta
  | S j => divide_down values (eta / nth i values NaN)%num j
  end.

(** The remaining time in seconds, as [estimate] first computes it. *)
Definition remaining (b : ProgressBar) (elapsed percent : num) : num :=
  let eta :=
    if (percent =? of_Z 100)%num then of_Z 0
    else (elapsed * (total b / curr b - of_Z 1))%num in
  (eta / of_Z 1000)%num.

Definition estimate (b : ProgressBar) (elapsed percent : num) : Estimate :=
  let eta0 := remaining b elapsed percent in
  let values := values (units b) in
  let labels := labels (units b) in
  let i := (Z.of_nat (List.length values) - 1)%Z in
  let suffix0 := item labels i in
  if isNaN eta0 || negb (isFinite eta0) then
    {| eta := Some "0.0"; value := None; suffix := suffix0 |}
  else
    let i1 := walk_down values eta0 (Z.to_nat i) in
    let suffix1 := item labels (Z.of_nat i1) in
    let eta1 := divide_down values eta0 i1 in
    {| eta := None; value := Some (toFixed 1 eta1); suffix := suffix1 |}.

(** The steps of [render] after the check of [isTTY]. *)

Definition render_ratio (b : ProgressBar) : num :=
  Math_min (Math_max (curr b / total b)%num (of_Z 0)) (of_Z 1).

(** [new Date - this.start]. *)
Definition render_elapsed (b : ProgressBar) (now : num) : num :=
  match start b with
  | Some t => (now - t)%num
  | None => NaN
  end.

(** The template with the built-in tokens other than [:bar] filled in. *)
Definition render_template (b : ProgressBar) (f : string) (now : num)
  : string :=
  let ratio := render_ratio b in
  let percent := (ratio * of_Z 100)%num in
  let elapsed := render_elapsed b now in
  let eta := estimate b elapsed percent in
  replace ":percent" (toFixed 0 percent ++ "%")
    (replace ":unit" (String_of (suffix eta))
      (replace ":eta" (String_of (value eta))
        (replace ":elapsed"
           (if isNaN elapsed then "0.0"
            else toFixed 1 (elapsed / of_Z 1000)%num)
          (replace ":total" (Number_toString (total b))
            (replace ":current" (Number_toString (curr b)) f))))).

Definition availableSpace (b : ProgressBar) (str : string) : num :=
  Math_max (of_Z 0)
    (columns (stream b) - length_num (replace ":bar" "" str))%num.

Definition bar_width (b : ProgressBar) (str : string) : num :=
  Math_min (width b) (availableSpace b str).

Definition completeLength (width ratio : num) : num :=
  Math_round (width * ratio)%num.

(** The two runs of glyphs, [complete] and [incomplete]; [None] when one of
    the two [Array(...)] calls throws its RangeError. *)
Definition bar_glyphs (b : ProgressBar) (width ratio : num)
  : option (string * string) :=
  let completeLength := completeLength width ratio in
  match Array_join (completeLength + of_Z 1)%num (chars_complete b) with
  | None => None
  | Some complete =>
      match Array_join (width - completeLength + of_Z 1)%num
                       (chars_incomplete b) with
      | None => None
      | Some incomplete => Some (complete, incomplete)
      end
  end.

(** [for (var key in this.tokens) str = str.replace(':' + key, ...)]. *)
Definition replace_tokens (tokens : Tokens) (str : string) : string :=
  fold_left (fun s kv => replace (":" ++ fst kv) (snd kv) s) tokens str.

(** The line [render] computes, up to the comparison with [lastDraw]. *)
Definition render_line (b : ProgressBar) (now : num) : Exn + string :=
  match fmt b with
  | None => inl TypeError
  | Some f =>
      let str := render_template b f now in
      let width := bar_width b str in
      match bar_glyphs b width (render_ratio b) with
      | None => inl RangeError
      | Some (complete, incomplete) =>
          inr (replace_tokens (tokens b)
                 (replace ":bar" (complete ++ incomplete) str))
      end
  end.

Definition render (tokens : option Tokens) : M unit :=
  b <- get_this ;;
  clearTimeout (renderThrottleTimeout b) ;;
  modify_this (set_renderThrottleTimeout None) ;;
  match tokens with
  | Some t => modify_this (set_tokens t)
  | None => ret tt
  end ;;
  b <- get_this ;;
  if negb (isTTY (stream b)) then ret tt
  else
    now <- new_Date ;;
    match render_line b now with
    | inl e => throw e
    | inr str =>
        if String.eqb (lastDraw b) str then ret tt
        else
          emit (cursorTo 0) ;;
          emit (write str) ;;
          emit (clearLine (Some 1%Z)) ;;
          modify_this (set_lastDraw str)
    end.

Definition terminate : M unit :=
  emit enter_terminate ;;
  b <- get_this ;;
  if clear b && isTTY (stream b) then
    emit (clearLine None) ;;
    emit (cursorTo 0)
  else emit (write (String (ascii_of_nat 10) "")).

(** The first argument of [tick]: missing ([undefined] or [null]), a number,
    or a tokens object. *)
Inductive Len : Type :=
| len_undefined
| len_number (n : num)
| len_object (t : Tokens).

(** [if (len !== 0) len = len || 1]. *)
Definition len_or_1 (len : Len) : Len :=
  match len with
  | len_undefined => len_number (of_Z 1)
  | len_number n =>
      if (n =? of_Z 0)%num then len
      else if truthy n then len else len_number (of_Z 1)
  | len_object _ => len
  end.

(** [if ('object' == typeof len) tokens = len, len = 1]: the tokens and the
    increment [tick] goes on with. *)
Definition tick_tokens (len : Len) (tokens : option Tokens) : option Tokens :=
  match len_or_1 len with
  | len_object t => Some t
  | _ => tokens
  end.

Definition tick_len (len : Len) : num :=
  match len_or_1 len with
  | len_number n => n
  | len_object _ => of_Z 1
  | len_undefined => NaN
  end.

(** The first half of [tick]: the tokens, the start time, the counter and
    the scheduling of a render. *)
Definition tick_advance (len : Len) (tokens : option Tokens) : M unit :=
  let tokens := tick_tokens len tokens in
  let len := tick_len len in
  (* if (tokens) this.tokens = tokens *)
  match tokens with
  | Some t => modify_this (set_tokens t)
  | None => ret tt
  end ;;
  (* start time for eta *)
  b <- get_this ;;
  (if (of_Z 0 =? curr b)%num
   then now <- new_Date ;; modify_this (set_start (Some now))
   else ret tt) ;;
  modify_this (fun b => set_curr (curr b + len)%num b) ;;
  (* schedule render *)
  b <- get_this ;;
  match renderThrottleTimeout b with
  | None =>
      h <- setTimeout (renderThrottle b) ;;
      modify_this (set_renderThrottleTimeout (Some h))
  | Some _ => ret tt
  end.

(** The block under [if (this.curr >= this.total)]. *)
Definition tick_complete : M unit :=
  b <- get_this ;;
  match renderThrottleTimeout b with
  | Some _ => render None
  | None => ret tt
  end ;;
  modify_this (set_complete true) ;;
  terminate ;;
  b <- get_this ;;
  emit (enter_callback (callback b)).

Definition tick (len : Len) (tokens : option Tokens) : M unit :=
  tick_advance len tokens ;;
  (* progress complete *)
  b <- get_this ;;
  if (curr b >=? total b)%num then tick_complete else ret tt.

Definition update (ratio : num) (tokens : option Tokens) : M unit :=
  b <- get_this ;;
  let goal := Math_floor (ratio * total b)%num in
  let delta := (goal - curr b)%num in
  tick (len_number delta) tokens.

(** A timer of the bar fires: the host removes it and calls the bound
    [render] without arguments.  Nothing happens for a handle that is not
    set. *)
Definition fire (h : nat) : M unit :=
  fun w =>
    if existsb (fun t => Nat.eqb (fst t) h) (timers w) then
      render None
        {| this := this w; log := log w; clock := clock w;
           timers := filter (fun t => negb (Nat.eqb (fst t) h)) (timers w);
           next_timer := next_timer w |}
    else Return tt w.

(** ** Runs of calls *)

(** What the host does with a bar: it calls [tick], [update] or [render],
    one of the bar's timers fires, or time passes. *)
Inductive Call : Type :=
| call_tick (len : Len) (tokens : option Tokens)
| call_update (ratio : num) (tokens : option Tokens)
| call_render (tokens : option Tokens)
| timer_fires (h : nat)
| time_passes (ms : num).

Definition perform (c : Call) : M unit :=
  match c with
  | call_tick len tokens => tick len tokens
  | call_update ratio tokens => update ratio tokens
  | call_render tokens => render tokens
  | timer_fires h => fire h
  | time_passes ms =>
      fun w =>
        Return tt {| this := this w; log := log w;
                     clock := (clock w + ms)%num;
                     timers := timers w; next_timer := next_timer w |}
  end.

(** The calls in order; a call that throws ends the run. *)
Fixpoint perform_all (calls : list Call) : M unit :=
  match calls with
  | [] => ret tt
  | c :: calls' => perform c ;; perform_all calls'
  end.

(** The world right after construction, at time [t]. *)
Definition boot (b : ProgressBar) (t : num) : World :=
  {| this := b; log := []; clock := t; timers := []; next_timer := 1 |}.

Definition is_enter_terminate (e : Event) : bool :=
  match e with enter_terminate => true | _ => false end.

Definition is_enter_callback (e : Event) : bool :=
  match e with enter_callback _ => true | _ => false end.

Definition count (p : Event -> bool) (l : list Event) : nat :=
  List.length (filter p l).

(** The bar as [render] leaves it when it returns at the check of [isTTY]. *)
Definition render_entry (tokens : option Tokens) (b : ProgressBar)
  : ProgressBar :=
  let b := set_renderThrottleTimeout None b in
  match tokens with
  | Some t => set_tokens t b
  | None => b
  end.

(** The world as [render] leaves it when it returns at the check of
    [isTTY]: the timer of the stored handle is no longer set. *)
Definition after_render_entry (given : option Tokens) (w : World) : World :=
  {| this := render_entry given (this w);
     log := log w;
     clock := clock w;
     timers := match renderThrottleTimeout (this w) with
               | Some h => filter (fun t => negb (Nat.eqb (fst t) h)) (timers w)
               | None => timers w
               end;
     next_timer := next_timer w |}.

(** A world the host can bring about: a bar that the constructor returned,
    followed by some calls. *)
Definition reachable (w : World) : Prop :=
  exists process_stderr fmt options b t calls,
    new_ProgressBar process_stderr fmt options = inr b /\
    w = world_of (perform_all calls (boot b t)).

Definition is_tick (c : Call) : bool :=
  match c with call_tick _ _ => true | _ => false end.

Definition is_tick_or_update (c : Call) : bool :=
  match c with call_tick _ _ | call_update _ _ => true | _ => false end.

(** ** The statements of the specification that the code does not meet

    Each is written down as the specification has it, to be compared with
    what the methods do. *)

(** Completion happens once: however often [tick] is called on a bar,
    [terminate] and the completion callback are entered at most once. *)
Definition completion_is_idempotent : Prop :=
  forall process_stderr fmt options b t calls,
    new_ProgressBar process_stderr fmt options = inr b ->
    forallb is_tick calls = true ->
    let w := world_of (perform_all calls (boot b t)) in
    (count is_enter_terminate (log w) <= 1)%nat /\
    (count is_enter_callback (log w) <= 1)%nat.

(** The [units] option as the constructor reads it. *)
Definition arg_units (options : Arg) : option UnitMap :=
  match options with
  | arg_object o => o_units o
  | _ => None
  end.

(** Without a [units] option the table is seconds, minutes, hours. *)
Definition default_table_is_hms : Prop :=
  forall process_stderr fmt options b,
    new_ProgressBar process_stderr fmt options = inr b ->
    arg_units options = None ->
    units b = {| labels := ["s"; "m"; "h"];
                 values := [of_Z 1; of_Z 60; of_Z 3600] |}.

(** The remaining time is not a number or infinite. *)
Definition degenerate (eta : num) : bool := isNaN eta || negb (isFinite eta).

(** On the degenerate path the result has [value] "0.0" and the label of
    the smallest unit (the first of the ascending table) as suffix. *)
Definition degenerate_estimate_is_zero_smallest : Prop :=
  forall w elapsed percent,
    reachable w ->
    degenerate (remaining (this w) elapsed percent) = true ->
    value (estimate (this w) elapsed percent) = Some "0.0" /\
    suffix (estimate (this w) elapsed percent)
      = item (labels (units (this w))) 0.

(** A table in ascending order (of numbers, none of them [NaN]). *)
Definition ascending (values : list num) : Prop :=
  forall i j, (i <= j < List.length values)%nat ->
    leb (nth i values NaN) (nth j values NaN) = true.

(** Index [i] is the largest unit that is at most [r], or the smallest unit
    when [r] is below every unit. *)
Definition selects (values : list num) (r : num) (i : nat) : Prop :=
  (i < List.length values)%nat /\
  (i = 0%nat \/ leb (nth i values NaN) r = true) /\
  forall j, (i < j < List.length values)%nat -> (r <? nth j values NaN)%num = true.

(** The scaling in the words of the specification: descending from the top
    unit to the selected one, divide by the value of each unit above the
    selected one.  [above] is the number of units above index [i]. *)
Fixpoint divide_above (values : list num) (r : num) (i above : nat) : num :=
  match above with
  | O => r
  | S k => divide_above values (r / nth (i + above) values NaN)%num i k
  end.

Definition estimate_scales_by_units_above : Prop :=
  forall w elapsed percent,
    reachable w ->
    let r := remaining (this w) elapsed percent in
    let values := values (units (this w)) in
    ascending values ->
    isFinite r = true -> leb (of_Z 0) r = true ->
    exists i,
      selects values r i /\
      suffix (estimate (this w) elapsed percent)
        = item (labels (units (this w))) (Z.of_nat i) /\
      value (estimate (this w) elapsed percent)
        = Some (toFixed 1
                  (divide_above values r i (List.length values - 1 - i))).

(** The stream and the total as the specification speaks of them: the
    sink that can be resolved from the second argument and the host, and
    the total tick count the second argument carries. *)
Definition arg_stream (process_stderr : option Stream) (options : Arg)
  : option Stream :=
  match options with
  | arg_object {| o_stream := Some s |} => Some s
  | _ => process_stderr
  end.

Definition arg_total (options : Arg) : option num :=
  match options with
  | arg_number n => Some n
  | arg_object o => o_total o
  | _ => None
  end.

Definition is_number (options : Arg) : bool :=
  match options with arg_number _ => true | _ => false end.

Definition throws (r : Exn + ProgressBar) : Prop := exists e, r = inl e.

(** Construction throws exactly when there is no sink, no format string or
    no total, whatever the form of the second argument. *)
Definition construction_fails_iff_missing : Prop :=
  forall process_stderr fmt options,
    throws (new_ProgressBar process_stderr fmt options) <->
    (arg_stream process_stderr options = None \/ fmt = None \/
     arg_total options = None).

(** Once the counter is positive, no [tick] or [update] makes it smaller. *)
Definition curr_never_decreases : Prop :=
  forall w c,
    reachable w ->
    is_tick_or_update c = true ->
    (of_Z 0 <? curr (this w))%num = true ->
    leb (curr (this w)) (curr (this (world_of (perform c w)))) = true.


(** ** Bars and worlds used as instances below *)

Definition terminal : Stream := {| isTTY := true; columns := of_Z 80 |}.

(** A stream that is not a terminal has no [columns]. *)
Definition pipe : Stream := {| isTTY := false; columns := NaN |}.

Definition options_total (n : Z) : Options :=
  {| o_total := Some (of_Z n); o_width := None; o_stream := None;
     o_complete := None; o_incomplete := None; o_renderThrottle := None;
     o_callback := None; o_clear := false; o_units := None |}.

Definition options_units (n : Z) (u : UnitMap) : Options :=
  {| o_total := Some (of_Z n); o_width := None; o_stream := None;
     o_complete := None; o_incomplete := None; o_renderThrottle := None;
     o_callback := None; o_clear := false; o_units := Some u |}.

Definition options_width (n width : Z) : Options :=
  {| o_total := Some (of_Z n); o_width := Some (of_Z width); o_stream := None;
     o_complete := None; o_incomplete := None; o_renderThrottle := None;
     o_callback := None; o_clear := false; o_units := None |}.

(** [new ProgressBar(fmt, options)] on a host whose [process.stderr] is
    [s], as a bar ([options] is such that there is no throw). *)
Definition bar_on (s : Stream) (f : string) (options : Options) : ProgressBar :=
  init s (Some f) options
    (match o_total options with Some n => n | None => NaN end).

Definition tick1 : Call := call_tick len_undefined None.

(** A bar of four ticks on a terminal, two of them done. *)
Definition half_done : ProgressBar :=
  set_curr (of_Z 2) (bar_on terminal ":bar" (options_total 4)).

(** That bar before and after its first [render()]. *)
Definition undrawn : World := boot half_done (of_Z 0).
Definition drawn : World := world_of (render None undrawn).

(** A bar of four ticks on a pipe after its first [tick()]: a timer is
    pending. *)
Definition ticked_pipe : World :=
  world_of (tick len_undefined None
              (boot (bar_on pipe ":bar" (options_total 4)) (of_Z 0))).

(** ** The remaining public methods and runs over the whole interface *)

(** [log]: [formatted] is what [util.format] makes of the arguments of the
    call.  (The method is named [bar_log] here since [log] is the event log
    of the world.) *)
Definition bar_log (formatted : string) : M unit :=
  b <- get_this ;;
  (if isTTY (stream b)
   then emit (clearLine None) ;; emit (cursorTo 0)
   else ret tt) ;;
  emit (write (formatted ++ String (ascii_of_nat 10) "")) ;;
  b <- get_this ;;
  if isTTY (stream b) then emit (write (lastDraw b)) else ret tt.

(** Everything the host can do with a bar: the calls above, [log] and a
    direct call of [terminate]. *)
Inductive Action : Type :=
| host_call (c : Call)
| host_log (formatted : string)
| host_terminate.

Definition act (a : Action) : M unit :=
  match a with
  | host_call c => perform c
  | host_log formatted => bar_log formatted
  | host_terminate => terminate
  end.

(** The actions in order; an action that throws ends the run. *)
Fixpoint act_all (actions : list Action) : M unit :=
  match actions with
  | [] => ret tt
  | a :: actions' => act a ;; act_all actions'
  end.

(** A world the host can bring about through the whole interface. *)
Definition attainable (w : World) : Prop :=
  exists process_stderr fmt options b t actions,
    new_ProgressBar process_stderr fmt options = inr b /\
    w = world_of (act_all actions (boot b t)).

(** At most one timer is set, and it is the one whose handle the bar
    holds. *)
Definition one_timer (w : World) : Prop :=
  match renderThrottleTimeout (this w) with
  | Some h => exists delay, timers w = [(h, delay)]
  | None => timers w = []
  end.

(** Every unit value is a number other than [NaN]. *)
Definition no_NaN (obj : UnitMap) : Prop :=
  forall kv, In kv obj -> isNaN (snd kv) = false.

(** The character [c] occurs in [s]. *)
Fixpoint occurs (c : ascii) (s : string) : bool :=
  match s with
  | EmptyString => false
  | String d s' => Ascii.eqb c d || occurs c s'
  end.

Definition newline : string := String (ascii_of_nat 10) "".

(** The order of the table and the entries [sort] can order. *)
Definition entry_le (a b : UnitEntry) : Prop :=
  leb (UnitTable.value a) (UnitTable.value b) = true.

Definition entry_ok (a : UnitEntry) : Prop :=
  isNaN (UnitTable.value a) = false.

Definition entry_of (kv : string * num) : UnitEntry :=
  {| label := fst kv; UnitTable.value := snd kv |}.

Definition pair_of (e : UnitEntry) : string * num :=
  (label e, UnitTable.value e).

(** The second argument is [undefined] or [null]. *)
Definition is_nullish (options : Arg) : bool :=
  match options with arg_undefined | arg_null => true | _ => false end.

(** The part of a bar that is set at construction. *)
Definition same_config (b b' : ProgressBar) : Prop :=
  stream b' = stream b /\ fmt b' = fmt b /\ total b' = total b /\
  units b' = units b /\ width b' = width b /\ clear b' = clear b /\
  chars_complete b' = chars_complete b /\
  chars_incomplete b' = chars_incomplete b /\
  renderThrottle b' = renderThrottle b /\ callback b' = callback b.

(** What [terminate] calls on the stream. *)
Definition terminate_events (b : ProgressBar) : list Event :=
  if clear b && isTTY (stream b)
  then [clearLine None; cursorTo 0]
  else [write newline].

(** The world after the last three steps of the completion block:
    [this.complete = true], [terminate()] and the callback. *)
Definition completed (w : World) : World :=
  {| this := set_complete true (this w);
     log := log w ++ enter_terminate :: terminate_events (this w)
                  ++ [enter_callback (callback (this w))];
     clock := clock w;
     timers := timers w;
     next_timer := next_timer w |}.

(** The world after [log(...)]. *)
Definition logged (formatted : string) (w : World) : World :=
  {| this := this w;
     log := log w
            ++ (if isTTY (stream (this w))
                then [clearLine None; cursorTo 0] else [])
            ++ [write (formatted ++ newline)]
            ++ (if isTTY (stream (this w))
                then [write (lastDraw (this w))] else []);
     clock := clock w;
     timers := timers w;
     next_timer := next_timer w |}.

(** The line the bar remembers as drawn is empty or was written to the
    stream. *)
Definition last_line_written (w : World) : Prop :=
  lastDraw (this w) = "" \/ In (write (lastDraw (this w))) (log w).

(** More bars used as instances: [new ProgressBar(undefined, 10)] on a
    host whose [process.stderr] is a terminal, a bar whose format has no
    token, and a fresh bar of [n] ticks on a stream. *)
Definition formatless : ProgressBar :=
  init terminal None (options_total 10) (of_Z 10).

Definition plain_text : ProgressBar :=
  bar_on terminal "working" (options_total 4).

Definition fresh (s : Stream) (n : Z) : World :=
  boot (bar_on s ":bar" (options_total n)) (of_Z 0).

(** The [width] option as the constructor reads it: [None] when the second
    argument is a bare number or has no [width]. *)
Definition arg_width (options : Arg) : option num :=
  match options with
  | arg_object o => o_width o
  | _ => None
  end.

(** * Statements *)

(** ** Counting events *)

Lemma count_app p l1 l2 : count p (l1 ++ l2) = (count p l1 + count p l2)%nat.
Proof. unfold count. rewrite filter_app, length_app. reflexivity. Qed.

(** ** What [render] leaves alone *)

Lemma render_frame tokens w :
  let w' := world_of (render tokens w) in
  curr (this w') = curr (this w) /\ total (this w') = total (this w) /\
  callback (this w') = callback (this w) /\ clear (this w') = clear (this w) /\
  stream (this w') = stream (this w) /\
  count is_enter_terminate (log w') = count is_enter_terminate (log w) /\
  count is_enter_callback (log w') = count is_enter_callback (log w).
Proof.
  unfold render, bind, get_this, clearTimeout, modify_this, ret, new_Date,
    throw, emit.
  destruct (renderThrottleTimeout (this w)), tokens; simpl;
    destruct (isTTY (stream (this w))); simpl; try tauto;
    match goal with
    | |- context [render_line ?b ?n] => destruct (render_line b n)
    end; simpl; try tauto;
    match goal with
    | |- context [String.eqb ?a ?b] => destruct (String.eqb a b)
    end; simpl;
    rewrite ?count_app; unfold count; simpl; repeat split;
    try reflexivity; lia.
Qed.

(** ** The two halves of [tick] *)

(** The first half always returns; it adds the increment to the counter,
    writes nothing, and leaves a timer handle in place. *)
Lemma tick_advance_spec len tokens w :
  exists w1, tick_advance len tokens w = Return tt w1 /\
    curr (this w1) = (curr (this w) + tick_len len)%num /\
    total (this w1) = total (this w) /\ log w1 = log w /\
    renderThrottleTimeout (this w1) <> None.
Proof.
  unfold tick_advance, bind, get_this, modify_this, ret, new_Date, setTimeout.
  destruct (tick_tokens len tokens); simpl;
    destruct (of_Z 0 =? curr (this w))%num; simpl;
    destruct (renderThrottleTimeout (this w)) eqn:R; simpl;
    eexists; (split; [reflexivity|]); simpl; repeat split; congruence.
Qed.

(** The completion block keeps the counter and the total, and enters
    [terminate] and the callback once each, unless its render throws. *)
Lemma tick_complete_spec w :
  let r := tick_complete w in
  let n := if returned r then 1%nat else 0%nat in
  curr (this (world_of r)) = curr (this w) /\
  total (this (world_of r)) = total (this w) /\
  count is_enter_terminate (log (world_of r))
    = (count is_enter_terminate (log w) + n)%nat /\
  count is_enter_callback (log (world_of r))
    = (count is_enter_callback (log w) + n)%nat.
Proof.
  unfold tick_complete, bind, get_this.
  assert (H : forall (r0 : Result unit),
    curr (this (world_of r0)) = curr (this w) /\
    total (this (world_of r0)) = total (this w) /\
    count is_enter_terminate (log (world_of r0))
      = count is_enter_terminate (log w) /\
    count is_enter_callback (log (world_of r0))
      = count is_enter_callback (log w) ->
    let r :=
      match r0 with
      | Return _ w' =>
          match modify_this (set_complete true) w' with
          | Return _ w'0 =>
              match terminate w'0 with
              | Return _ w'1 => emit (enter_callback (callback (this w'1))) w'1
              | Throw e w'1 => Throw e w'1
              end
          | Throw e w'0 => Throw e w'0
          end
      | Throw e w' => Throw e w'
      end in
    let n := if returned r then 1%nat else 0%nat in
    curr (this (world_of r)) = curr (this w) /\
    total (this (world_of r)) = total (this w) /\
    count is_enter_terminate (log (world_of r))
      = (count is_enter_terminate (log w) + n)%nat /\
    count is_enter_callback (log (world_of r))
      = (count is_enter_callback (log w) + n)%nat).
  { intros r0 F. destruct r0 as [[] w1 | e w1]; simpl in *.
    - unfold terminate, bind, emit, get_this, modify_this. simpl.
      destruct (clear (this w1) && isTTY (stream (this w1))); simpl;
        rewrite ?count_app; unfold count in *; simpl; repeat split;
        try tauto; lia.
    - repeat split; try tauto; lia. }
  destruct (renderThrottleTimeout (this w)).
  - apply H. pose proof (render_frame None w) as F. simpl in F. tauto.
  - apply H. simpl. tauto.
Qed.

(** ** C1: completion *)

(** C1 (as the code has it).  A call of [tick] enters [terminate] and then
    the completion callback exactly once when it returns with
    [curr >= total], and not at all otherwise; nothing looks at
    [this.complete], so this holds just as well for a call made after the
    bar has completed. *)
Theorem tick_completes_every_time len tokens w :
  let r := tick len tokens w in
  let n :=
    if returned r
       && (curr (this (world_of r)) >=? total (this (world_of r)))%num
    then 1%nat else 0%nat in
  count is_enter_terminate (log (world_of r))
    = (count is_enter_terminate (log w) + n)%nat /\
  count is_enter_callback (log (world_of r))
    = (count is_enter_callback (log w) + n)%nat.
Proof.
  unfold tick, bind.
  destruct (tick_advance_spec len tokens w) as (w1 & -> & Hc & Ht & Hl & _).
  unfold get_this.
  destruct (curr (this w1) >=? total (this w1))%num eqn:E.
  - pose proof (tick_complete_spec w1) as S. simpl in S.
    destruct S as (Sc & St & S1 & S2). rewrite Sc, St, E, S1, S2, Hl.
    rewrite andb_true_r. tauto.
  - simpl. rewrite E, Hl. lia.
Qed.

(** ** C2: the default unit table *)

(** C2 (as the code has it).  A bar constructed without a [units] option
    has the one-entry table (s, 1); the table seconds, minutes, hours is
    what [mkUnits] makes of [ProgressBar.defaultUnits], which the
    constructor does not use. *)
Theorem default_table_is_seconds process_stderr fmt options b :
  new_ProgressBar process_stderr fmt options = inr b ->
  arg_units options = None ->
  units b = {| labels := ["s"]; values := [of_Z 1] |} /\
  mkUnits defaultUnits
    = {| labels := ["s"; "m"; "h"];
         values := [of_Z 1; of_Z 60; of_Z 3600] |}.
Proof.
  intros Hnew Hunits. split; [|reflexivity].
  unfold new_ProgressBar in Hnew.
  destruct options as [| | n | o |]; try discriminate.
  - destruct process_stderr; [|discriminate].
    injection Hnew as <-. reflexivity.
  - simpl in Hunits.
    destruct (match o_stream o with Some s => Some s | None => process_stderr end);
      [|discriminate].
    destruct fmt; [|discriminate].
    destruct (o_total o); [|discriminate].
    injection Hnew as <-. simpl. rewrite Hunits. reflexivity.
  - destruct process_stderr; [|discriminate].
    destruct fmt; discriminate.
Qed.

(** ** C5: when construction throws *)

(** When the constructor throws, as the code stands: exactly when no
    stream can be resolved or, for a second argument that is not a bare
    number, when the format is not a string or there is no total of type
    number.  The check of the format sits in the branch of the options
    object only, so with a bare number the format is not looked at. *)
Theorem construction_fails_iff process_stderr fmt options :
  throws (new_ProgressBar process_stderr fmt options) <->
  (arg_stream process_stderr options = None \/
   (is_number options = false /\ (fmt = None \/ arg_total options = None))).
Proof.
  unfold throws, new_ProgressBar.
  destruct options as [| | n | o |]; simpl.
  - split; [auto | eauto].
  - split; [auto | eauto].
  - destruct process_stderr; split.
    + intros [e H]. discriminate.
    + intros [H | [H _]]; discriminate.
    + auto.
    + eauto.
  - destruct o as [ot ow os oc oi ort ocb ocl ou]; simpl.
    destruct os as [s|]; [|destruct process_stderr as [s|]];
      try (split; [auto | eauto]; fail);
      destruct fmt as [f|]; try (split; [auto | eauto]; fail);
      destruct ot as [t|]; try (split; [auto 6 | eauto]; fail);
      (split; [intros [e H]; discriminate
              | intros [H | [_ [H | H]]]; discriminate]).
  - destruct process_stderr; [|split; [auto | eauto]].
    destruct fmt; split; eauto.
Qed.

(** C5 (the code where it misses the statement).  With a bare number as
    second argument the constructor returns a bar although the format is
    missing, [new ProgressBar(undefined, 10)], where the same format with an
    options object, [new ProgressBar(undefined, {total: 10})], throws
    'format required'. *)
Theorem bare_number_skips_format_check :
  new_ProgressBar (Some terminal) None (arg_number (of_Z 10))
    = inr formatless /\
  new_ProgressBar (Some terminal) None (arg_object (options_total 10))
    = inl (Error "format required").
Proof. split; reflexivity. Qed.

(** ** Order on numbers *)

Lemma ltb_Fin x y : (Fin x <? Fin y)%num = true <-> (x < y)%Q.
Proof.
  unfold ltb. rewrite negb_true_iff. split.
  - intros H. apply Qnot_le_lt. intros L. apply Qle_bool_iff in L. congruence.
  - intros H. destruct (Qle_bool y x) eqn:E; [|reflexivity].
    apply Qle_bool_iff in E. exfalso. apply (Qlt_not_le _ _ H E).
Qed.

Lemma eqb_Fin x y : (Fin x =? Fin y)%num = true <-> (x == y)%Q.
Proof. unfold eqb. apply Qeq_bool_iff. Qed.

Lemma leb_Fin x y : leb (Fin x) (Fin y) = true <-> (x <= y)%Q.
Proof.
  unfold leb, geb. rewrite orb_true_iff, ltb_Fin, eqb_Fin. split.
  - intros [H | H]; [apply Qlt_le_weak; exact H | rewrite H; apply Qle_refl].
  - intros H. apply Qle_lteq in H. destruct H as [H | H]; [left; exact H | right; symmetry; exact H].
Qed.

Lemma leb_not_NaN a b : leb a b = true -> isNaN a = false /\ isNaN b = false.
Proof. destruct a, b; simpl; intros H; try discriminate H; split; reflexivity. Qed.

Lemma ltb_leb_absurd a b : (a <? b)%num = true -> leb b a = true -> False.
Proof.
  destruct a, b; try discriminate; intros H1 H2.
  apply ltb_Fin in H1. apply leb_Fin in H2. apply (Qlt_not_le _ _ H1 H2).
Qed.

Lemma not_ltb_leb a b :
  isNaN a = false -> isNaN b = false -> (a <? b)%num = false ->
  leb b a = true.
Proof.
  destruct a, b; try discriminate; try reflexivity; intros _ _ H.
  apply leb_Fin. apply Qnot_lt_le. intros L. apply ltb_Fin in L. congruence.
Qed.

(** ** C3 and C4: the estimate *)

(** The loop that walks down stops at or below its start, either at index 0
    or at a unit that is not above the remaining time, and every unit it
    passed is above the remaining time. *)
Lemma walk_down_le values r n : (walk_down values r n <= n)%nat.
Proof.
  induction n as [|n IH]; simpl; [lia|].
  destruct (r <? nth (S n) values NaN)%num; lia.
Qed.

Lemma walk_down_stops values r n :
  walk_down values r n = 0%nat \/
  (r <? nth (walk_down values r n) values NaN)%num = false.
Proof.
  induction n as [|n IH]; simpl; [left; reflexivity|].
  destruct (r <? nth (S n) values NaN)%num eqn:E; [exact IH|].
  right. exact E.
Qed.

Lemma walk_down_above values r n j :
  (walk_down values r n < j <= n)%nat -> (r <? nth j values NaN)%num = true.
Proof.
  induction n as [|n IH]; simpl; [lia|].
  destruct (r <? nth (S n) values NaN)%num eqn:E; [|lia].
  intros H. destruct (Nat.eq_dec j (S n)) as [-> | Hne]; [exact E|].
  apply IH. lia.
Qed.

Lemma inf_of_sign_not_finite s : isFinite (inf_of_sign s) = false.
Proof. destruct s; reflexivity. Qed.

Lemma div_zero_not_finite a : isFinite (a / of_Z 0)%num = false.
Proof. destruct a; try reflexivity. apply inf_of_sign_not_finite. Qed.

Lemma sub_not_finite a q : isFinite a = false -> isFinite (a - Fin q)%num = false.
Proof. destruct a; try discriminate; reflexivity. Qed.

Lemma mul_not_finite a b : isFinite b = false -> isFinite (a * b)%num = false.
Proof.
  destruct a, b; try discriminate; try reflexivity; intros _;
    apply inf_of_sign_not_finite.
Qed.

Lemma div_not_finite a q : isFinite a = false -> isFinite (a / Fin q)%num = false.
Proof.
  destruct a; try discriminate; try reflexivity; intros _; unfold div;
    destruct (Qnum q <? 0)%Z; reflexivity.
Qed.

Lemma degenerate_not_finite a : degenerate a = negb (isFinite a).
Proof. destruct a; reflexivity. Qed.

(** With [curr = 0] and a percentage other than 100 the remaining time is
    always degenerate. *)
Lemma zero_curr_is_degenerate b elapsed percent :
  curr b = of_Z 0 -> (percent =? of_Z 100)%num = false ->
  degenerate (remaining b elapsed percent) = true.
Proof.
  intros Hc Hp. unfold remaining. rewrite Hp, Hc, degenerate_not_finite.
  apply negb_true_iff. apply div_not_finite, mul_not_finite, sub_not_finite,
    div_zero_not_finite.
Qed.

(** C3 (as the code has it).  When the remaining time is not a number or
    infinite, the suffix [estimate] returns is the label at the last index of
    the table, the largest unit of an ascending table; with the units
    [{s: 1}] that label is "s". *)
Theorem degenerate_estimate_suffix b elapsed percent :
  degenerate (remaining b elapsed percent) = true ->
  suffix (estimate b elapsed percent)
    = item (labels (units b))
        (Z.of_nat (List.length (values (units b))) - 1) /\
  (units b = mkUnits [("s", of_Z 1)] ->
   suffix (estimate b elapsed percent) = Some "s").
Proof.
  intros H. unfold estimate. unfold degenerate in H. rewrite H.
  split; [reflexivity|]. intros ->. reflexivity.
Qed.

(** C4 (as the code has it).  On an ascending, non-empty table and a finite
    remaining time [r >= 0], [estimate] selects the largest unit that is at
    most [r], the smallest unit when there is none, and returns its label;
    the value is [r] to one decimal when the smallest unit is selected and
    [r] divided by the selected unit to one decimal when the second smallest
    is. *)
Theorem estimate_selects_and_scales b elapsed percent :
  let r := remaining b elapsed percent in
  let values := values (units b) in
  values <> [] -> ascending values ->
  isFinite r = true -> leb (of_Z 0) r = true ->
  exists i,
    selects values r i /\
    (forall j, (j < List.length values)%nat ->
       leb (nth j values NaN) r = true ->
       leb (nth j values NaN) (nth i values NaN) = true) /\
    suffix (estimate b elapsed percent)
      = item (labels (units b)) (Z.of_nat i) /\
    (i = 0%nat -> value (estimate b elapsed percent) = Some (toFixed 1 r)) /\
    (i = 1%nat ->
     value (estimate b elapsed percent)
       = Some (toFixed 1 (r / nth 1 values NaN)%num)).
Proof.
  intros r vals Hne Hasc Hfin _.
  set (n := (List.length vals - 1)%nat).
  assert (Hlen : (0 < List.length vals)%nat)
    by (destruct vals; [congruence | simpl; lia]).
  assert (HrN : isNaN r = false) by (destruct r; [discriminate..|reflexivity]).
  exists (walk_down vals r n).
  pose proof (walk_down_le vals r n) as Hle.
  assert (Hsel : selects vals r (walk_down vals r n)).
  { split; [lia|]. split.
    - destruct (walk_down_stops vals r n) as [H0 | Hs]; [left; exact H0|].
      right. apply not_ltb_leb; [exact HrN | | exact Hs].
      assert (Hii : leb (nth (walk_down vals r n) vals NaN)
                        (nth (walk_down vals r n) vals NaN) = true)
        by (apply Hasc; lia).
      apply leb_not_NaN in Hii. tauto.
    - intros j Hj. apply (walk_down_above vals r n). lia. }
  split; [exact Hsel|]. split.
  { intros j Hj Hjr.
    destruct (Nat.le_gt_cases j (walk_down vals r n)) as [L | G].
    - apply Hasc. lia.
    - exfalso. destruct Hsel as (_ & _ & Habove).
      apply (ltb_leb_absurd r (nth j vals NaN)); [apply Habove; lia | exact Hjr]. }
  assert (Hdeg : isNaN r || negb (isFinite r) = false)
    by (rewrite HrN, Hfin; reflexivity).
  unfold estimate. fold r. fold vals. rewrite Hdeg. simpl.
  replace (Z.to_nat (Z.of_nat (List.length vals) - 1)) with n by lia.
  split; [reflexivity|]. split; intros ->; reflexivity.
Qed.

(** ** C6 and C7: the counter under [tick] and [update] *)

(** Whether it returns or throws, [tick] adds its increment to the counter
    and leaves the total alone. *)
Lemma tick_curr len tokens w :
  curr (this (world_of (tick len tokens w)))
    = (curr (this w) + tick_len len)%num /\
  total (this (world_of (tick len tokens w))) = total (this w).
Proof.
  unfold tick, bind.
  destruct (tick_advance_spec len tokens w) as (w1 & -> & Hc & Ht & _ & _).
  unfold get_this.
  destruct (curr (this w1) >=? total (this w1))%num.
  - pose proof (tick_complete_spec w1) as S. simpl in S.
    destruct S as (Sc & St & _ & _). rewrite Sc, St. auto.
  - simpl. auto.
Qed.

Lemma tick_len_finite d : tick_len (len_number (Fin d)) = Fin d.
Proof.
  unfold tick_len, len_or_1, eqb, truthy, of_Z.
  change (inject_Z 0) with 0%Q. destruct (Qeq_bool d 0); reflexivity.
Qed.

Lemma add_nonneg c n :
  leb (of_Z 0) n = true -> leb (Fin c) (Fin c + n)%num = true.
Proof.
  destruct n as [| | |d]; try discriminate; [reflexivity|].
  intros H. apply leb_Fin in H. unfold add. apply leb_Fin.
  rewrite Qred_correct. unfold inject_Z in H. lra.
Qed.

Lemma add_nonpos c n :
  leb n (of_Z 0) = true -> leb (Fin c + n)%num (Fin c) = true.
Proof.
  destruct n as [| | |d]; try discriminate; [reflexivity|].
  intros H. apply leb_Fin in H. unfold add. apply leb_Fin.
  rewrite Qred_correct. unfold inject_Z in H. lra.
Qed.

Lemma sub_nonneg c g :
  leb (Fin c) g = true -> leb (of_Z 0) (tick_len (len_number (g - Fin c)%num)) = true.
Proof.
  destruct g as [| | |g]; try discriminate; [reflexivity|].
  intros H. apply leb_Fin in H. unfold sub, neg, add.
  rewrite tick_len_finite. apply leb_Fin.
  rewrite !Qred_correct. unfold inject_Z. lra.
Qed.

(** C6 (as the code has it).  On a finite counter, a [tick] whose increment
    is not negative does not decrease the counter, nor does an [update]
    whose goal [floor(ratio * total)] is not below it; a [tick] whose
    increment is not positive does not increase it (the counter may go
    back). *)
Theorem curr_moves_with_the_increment w :
  isFinite (curr (this w)) = true ->
  (forall len tokens,
     leb (of_Z 0) (tick_len len) = true ->
     leb (curr (this w)) (curr (this (world_of (tick len tokens w)))) = true) /\
  (forall len tokens,
     leb (tick_len len) (of_Z 0) = true ->
     leb (curr (this (world_of (tick len tokens w)))) (curr (this w)) = true) /\
  (forall ratio tokens,
     leb (curr (this w)) (Math_floor (ratio * total (this w))%num) = true ->
     leb (curr (this w)) (curr (this (world_of (update ratio tokens w)))) = true).
Proof.
  intros Hfin. destruct (curr (this w)) as [| | |c] eqn:Hc; try discriminate.
  repeat split.
  - intros len tokens H. destruct (tick_curr len tokens w) as [-> _].
    rewrite Hc. apply add_nonneg, H.
  - intros len tokens H. destruct (tick_curr len tokens w) as [-> _].
    rewrite Hc. apply add_nonpos, H.
  - intros ratio tokens H. unfold update, bind, get_this.
    match goal with |- context [tick ?l ?t w] =>
      destruct (tick_curr l t w) as [-> _] end.
    rewrite Hc. apply add_nonneg, sub_nonneg, H.
Qed.

(** C7.  [update(ratio, tokens)] is the call
    [tick(floor(ratio * total) - curr, tokens)]; on a bar with [total = 3]
    and [curr = 0], [update(0.5)] leaves [curr = 1]. *)
Theorem update_is_tick ratio tokens w :
  update ratio tokens w
    = tick (len_number
              (Math_floor (ratio * total (this w)) - curr (this w))%num)
        tokens w /\
  (ratio = Fin (1 # 2) -> total (this w) = of_Z 3 -> curr (this w) = of_Z 0 ->
   curr (this (world_of (update ratio tokens w))) = of_Z 1).
Proof.
  split; [reflexivity|].
  intros -> Ht Hc. unfold update, bind, get_this.
  match goal with |- context [tick ?l ?t w] =>
    destruct (tick_curr l t w) as [-> _] end.
  rewrite Ht, Hc. reflexivity.
Qed.

(** ** C8: the bar *)

Lemma Qred_inject_Z z : Qred (inject_Z z) = inject_Z z.
Proof.
  unfold Qred, inject_Z.
  pose proof (Z.ggcd_gcd z 1) as Hg.
  pose proof (Z.ggcd_correct_divisors z 1) as Hd.
  destruct (Z.ggcd z 1) as [g [a b]]. simpl in Hg, Hd.
  rewrite Z.gcd_1_r in Hg. subst g. destruct Hd as [Ha Hb].
  replace a with z by lia. replace b with 1%Z by lia. reflexivity.
Qed.









(** ** C9 and C10: what [render] writes *)

(** [render] as a function of the line it computes. *)
Lemma render_unfold given w :
  render given w =
  let w1 := after_render_entry given w in
  if negb (isTTY (stream (this w))) then Return tt w1
  else
    match render_line (this w1) (clock w) with
    | inl e => Throw e w1
    | inr str =>
        if String.eqb (lastDraw (this w)) str then Return tt w1
        else
          Return tt
            {| this := set_lastDraw str (this w1);
               log := (log w ++ [cursorTo 0; write str; clearLine (Some 1%Z)])%list;
               clock := clock w;
               timers := timers w1;
               next_timer := next_timer w |}
    end.
Proof.
  unfold render, after_render_entry, render_entry, bind, get_this,
    clearTimeout, modify_this, ret, new_Date, throw, emit.
  destruct (renderThrottleTimeout (this w)), given; simpl;
    destruct (isTTY (stream (this w))); simpl; try reflexivity;
    match goal with
    | |- context [render_line ?b ?n] => destruct (render_line b n)
    end; simpl; try reflexivity;
    match goal with
    | |- context [String.eqb ?a ?b] => destruct (String.eqb a b)
    end; simpl; rewrite <- ?app_assoc; reflexivity.
Qed.

(** C9.  When [render] computes the line that was drawn last, it calls
    nothing on the stream and leaves [lastDraw] as it is; when it computes a
    different line, it moves the cursor, writes the line, clears the rest
    and records the line; and whenever a call of [render] adds anything to
    the log, it computed a line different from [lastDraw]. *)
Theorem render_writes_only_a_new_line given w :
  (forall str,
     isTTY (stream (this w)) = true ->
     render_line (render_entry given (this w)) (clock w) = inr str ->
     str = lastDraw (this w) ->
     log (world_of (render given w)) = log w /\
     lastDraw (this (world_of (render given w))) = lastDraw (this w)) /\
  (forall str,
     isTTY (stream (this w)) = true ->
     render_line (render_entry given (this w)) (clock w) = inr str ->
     str <> lastDraw (this w) ->
     log (world_of (render given w))
       = (log w ++ [cursorTo 0; write str; clearLine (Some 1%Z)])%list /\
     lastDraw (this (world_of (render given w))) = str) /\
  (log (world_of (render given w)) <> log w ->
   exists str,
     isTTY (stream (this w)) = true /\
     render_line (render_entry given (this w)) (clock w) = inr str /\
     str <> lastDraw (this w)).
Proof.
  rewrite render_unfold. cbv zeta.
  change (this (after_render_entry given w)) with (render_entry given (this w)).
  assert (HL : lastDraw (render_entry given (this w)) = lastDraw (this w))
    by (destruct given; reflexivity).
  repeat split.
  - rewrite H, H0. simpl. subst str. rewrite String.eqb_refl. reflexivity.
  - rewrite H, H0. simpl. subst str. rewrite String.eqb_refl. exact HL.
  - rewrite H, H0. simpl.
    destruct (String.eqb_spec (lastDraw (this w)) str); [congruence|reflexivity].
  - rewrite H, H0. simpl.
    destruct (String.eqb_spec (lastDraw (this w)) str); [congruence|reflexivity].
  - destruct (isTTY (stream (this w))); simpl; [|congruence].
    destruct (render_line (render_entry given (this w)) (clock w)) as [e|str];
      simpl; [congruence|].
    destruct (String.eqb_spec (lastDraw (this w)) str); simpl; [congruence|].
    intros _. exists str. repeat split. congruence.
Qed.

(** C10.  On a stream that is not a terminal, [render(tokens)] returns
    without writing, after it has cleared the pending timer (the handle
    field is [null] and the timer is no longer set) and, when tokens are
    given, stored them. *)
Theorem render_on_a_pipe given w :
  isTTY (stream (this w)) = false ->
  render given w = Return tt (after_render_entry given w) /\
  log (after_render_entry given w) = log w /\
  renderThrottleTimeout (this (after_render_entry given w)) = None /\
  (forall h, renderThrottleTimeout (this w) = Some h ->
     ~ In h (map fst (timers (after_render_entry given w)))) /\
  tokens (this (after_render_entry given w))
    = match given with Some t => t | None => tokens (this w) end.
Proof.
  intros H. rewrite render_unfold, H. simpl.
  split; [reflexivity|]. split; [reflexivity|].
  split; [destruct given; reflexivity|].
  split; [|destruct given; reflexivity].
  intros h Hh. rewrite Hh. intros Hin. apply in_map_iff in Hin.
  destruct Hin as ((h', d) & Heq & Hin). simpl in Heq. subst h'.
  apply filter_In in Hin. destruct Hin as [_ Hin]. simpl in Hin.
  rewrite Nat.eqb_refl in Hin. discriminate Hin.
Qed.


(** * Further properties of the code *)

(** ** [mkUnits] *)

Lemma leb_trans a b c : leb a b = true -> leb b c = true -> leb a c = true.
Proof.
  destruct a, b, c; try discriminate; try reflexivity; intros H1 H2.
  apply leb_Fin in H1, H2. apply leb_Fin. eapply Qle_trans; eassumption.
Qed.

Lemma leb_refl a : isNaN a = false -> leb a a = true.
Proof.
  destruct a; try discriminate; try reflexivity. intros _.
  apply leb_Fin. apply Qle_refl.
Qed.

(** The comparator [a - b] is positive exactly when [b < a]. *)
Lemma comparator_positive a b :
  (of_Z 0 <? a - b)%num = (b <? a)%num.
Proof.
  destruct a as [| | |x], b as [| | |y]; try reflexivity.
  unfold sub, neg, add, of_Z.
  destruct (Fin y <? Fin x)%num eqn:E.
  - apply ltb_Fin in E. apply ltb_Fin. rewrite !Qred_correct.
    unfold inject_Z. lra.
  - destruct (Fin (inject_Z 0) <? Fin (Qred (x + Qred (- y))))%num eqn:F;
      [|reflexivity].
    apply ltb_Fin in F. rewrite !Qred_correct in F. unfold inject_Z in F.
    assert (G : (Fin y <? Fin x)%num = true) by (apply ltb_Fin; lra).
    congruence.
Qed.

Lemma ltb_leb a b : (a <? b)%num = true -> leb a b = true.
Proof. intros H. unfold leb, geb. rewrite H. reflexivity. Qed.

Lemma Forall_perm {A : Type} (P : A -> Prop) l l' :
  Permutation l l' -> Forall P l -> Forall P l'.
Proof. intros H F. rewrite <- H. exact F. Qed.

Lemma insert_perm a l : Permutation (UnitTable.insert a l) (a :: l).
Proof.
  induction l as [|b l IH]; simpl; [reflexivity|].
  destruct (of_Z 0 <? compare_entries a b)%num; [|reflexivity].
  rewrite IH. apply perm_swap.
Qed.

Lemma sort_perm l : Permutation (UnitTable.sort l) l.
Proof.
  induction l as [|a l IH]; simpl; [reflexivity|].
  rewrite insert_perm. apply perm_skip, IH.
Qed.

Lemma insert_sorted a l :
  entry_ok a -> Forall entry_ok l ->
  StronglySorted entry_le l -> StronglySorted entry_le (UnitTable.insert a l).
Proof.
  intros Ha Hl Hs. induction l as [|b l IH]; simpl.
  - constructor; constructor.
  - inversion Hl as [|? ? Hb Hl']; subst.
    inversion Hs as [|? ? Hs' Hbl]; subst.
    unfold compare_entries. rewrite comparator_positive.
    destruct (UnitTable.value b <? UnitTable.value a)%num eqn:E.
    + constructor; [apply IH; assumption|].
      apply (Forall_perm _ (a :: l)); [symmetry; apply insert_perm|].
      constructor; [apply ltb_leb, E | exact Hbl].
    + assert (Hab : entry_le a b) by (apply not_ltb_leb; assumption).
      constructor; [exact Hs|].
      constructor; [exact Hab|].
      eapply Forall_impl; [|exact Hbl].
      intros c Hbc. unfold entry_le in *. eapply leb_trans; eassumption.
Qed.

Lemma sort_sorted l :
  Forall entry_ok l -> StronglySorted entry_le (UnitTable.sort l).
Proof.
  induction l as [|a l IH]; simpl; intros H; [constructor|].
  inversion H; subst.
  apply insert_sorted; [assumption | | apply IH; assumption].
  apply (Forall_perm _ l); [symmetry; apply sort_perm | assumption].
Qed.

Lemma ascending_cons a l :
  ascending (a :: l) <->
  leb a a = true /\ Forall (fun b => leb a b = true) l /\ ascending l.
Proof.
  unfold ascending. split.
  - intros H. split; [apply (H 0%nat 0%nat); simpl; lia|]. split.
    + apply Forall_forall. intros b Hb.
      destruct (In_nth _ _ NaN Hb) as (j & Hj & <-).
      apply (H 0%nat (S j)). simpl. lia.
    + intros i j Hij. apply (H (S i) (S j)). simpl. lia.
  - intros (Ha & Hall & Hl) i j Hij. simpl in Hij.
    destruct i as [|i], j as [|j]; simpl; try lia.
    + exact Ha.
    + rewrite Forall_forall in Hall. apply Hall. apply nth_In. lia.
    + apply Hl. lia.
Qed.

Lemma sorted_ascending l :
  Forall entry_ok l -> StronglySorted entry_le l ->
  ascending (map UnitTable.value l).
Proof.
  induction l as [|a l IH]; intros Hok Hs.
  - intros i j Hij. simpl in Hij. lia.
  - inversion Hok; subst. inversion Hs; subst. simpl.
    apply ascending_cons. split; [apply leb_refl; assumption|].
    split; [|apply IH; assumption].
    apply Forall_map. assumption.
Qed.

Lemma ascending_sorted l :
  ascending (map UnitTable.value l) ->
  Forall entry_ok l /\ StronglySorted entry_le l.
Proof.
  induction l as [|a l IH]; simpl; intros H.
  - split; constructor.
  - apply ascending_cons in H. destruct H as (Ha & Hall & Hl).
    destruct (IH Hl) as [Hok Hs]. split.
    + constructor; [|exact Hok]. apply leb_not_NaN in Ha. apply Ha.
    + constructor; [exact Hs|]. apply Forall_map in Hall. exact Hall.
Qed.

Lemma sort_of_sorted l :
  StronglySorted entry_le l -> UnitTable.sort l = l.
Proof.
  induction l as [|a l IH]; simpl; intros Hs; [reflexivity|].
  inversion Hs as [|? ? Hs' Hal]; subst. rewrite IH by assumption.
  destruct l as [|b l]; [reflexivity|]. simpl.
  inversion Hal as [|? ? Hab _]; subst.
  unfold compare_entries. rewrite comparator_positive.
  destruct (UnitTable.value b <? UnitTable.value a)%num eqn:E; [|reflexivity].
  exfalso. apply (ltb_leb_absurd _ _ E Hab).
Qed.

Lemma entries_of_map obj :
  map pair_of (map entry_of obj) = obj /\
  map UnitTable.value (map entry_of obj) = map snd obj /\
  map label (map entry_of obj) = map fst obj.
Proof.
  rewrite !map_map. split; [|split; apply map_ext; reflexivity].
  rewrite <- (map_id obj) at 2. apply map_ext. intros [k v]. reflexivity.
Qed.

Lemma combine_map_entries l :
  combine (map label l) (map UnitTable.value l) = map pair_of l.
Proof. induction l as [|a l IH]; simpl; [|rewrite IH]; reflexivity. Qed.

(** X1.  Whatever the order of the properties of the object, the table
    [mkUnits] builds is in ascending order of the unit values, provided none
    of them is [NaN]. *)
Theorem mkUnits_ascending obj :
  no_NaN obj -> ascending (UnitTable.values (mkUnits obj)).
Proof.
  intros H. unfold mkUnits. simpl.
  change (fun kv : string * num => {| label := fst kv; UnitTable.value := snd kv |})
    with entry_of.
  assert (Hok : Forall entry_ok (map entry_of obj)).
  { apply Forall_map. apply Forall_forall. intros kv Hin. apply (H kv Hin). }
  apply sorted_ascending.
  - apply (Forall_perm _ (map entry_of obj));
      [symmetry; apply sort_perm | exact Hok].
  - apply sort_sorted, Hok.
Qed.

(** X2.  [mkUnits] keeps every unit and invents none: labels and values
    have the length of the object, and, paired up index by index, they are
    the properties of the object in some order. *)
Theorem mkUnits_permutation obj :
  List.length (labels (mkUnits obj)) = List.length obj /\
  List.length (UnitTable.values (mkUnits obj)) = List.length obj /\
  Permutation (combine (labels (mkUnits obj)) (UnitTable.values (mkUnits obj)))
    obj.
Proof.
  unfold mkUnits. simpl.
  change (fun kv : string * num => {| label := fst kv; UnitTable.value := snd kv |})
    with entry_of.
  pose proof (sort_perm (map entry_of obj)) as P.
  rewrite !length_map, (Permutation_length P), length_map.
  split; [reflexivity|]. split; [reflexivity|].
  rewrite combine_map_entries.
  destruct (entries_of_map obj) as (E & _ & _). rewrite <- E at 2.
  apply Permutation_map, P.
Qed.

(** X3.  An object whose properties are already in ascending order of
    their values is taken over as it is: labels and values keep the order of
    the object. *)
Theorem mkUnits_of_ascending obj :
  ascending (map snd obj) ->
  labels (mkUnits obj) = map fst obj /\
  UnitTable.values (mkUnits obj) = map snd obj.
Proof.
  intros H. unfold mkUnits. simpl.
  change (fun kv : string * num => {| label := fst kv; UnitTable.value := snd kv |})
    with entry_of.
  destruct (entries_of_map obj) as (_ & Ev & El).
  rewrite <- Ev in H. apply ascending_sorted in H. destruct H as [_ Hs].
  rewrite (sort_of_sorted _ Hs). split; assumption.
Qed.

(** ** The constructor *)

Lemma num_or_not_NaN x d : isNaN d = false -> isNaN (num_or x d) = false.
Proof.
  intros H. destruct x as [[| | |q]|]; simpl; try assumption; try reflexivity.
  destruct (negb (Qeq_bool q 0)); [reflexivity | assumption].
Qed.

Lemma string_or_not_empty x d : d <> "" -> string_or x d <> "".
Proof. intros H. destruct x as [[|c s]|]; simpl; congruence. Qed.

(** X4.  Which error the constructor throws: a TypeError for a second
    argument that is [undefined] or [null] (the read of [options.stream]);
    otherwise 'invalid stream' when no stream can be resolved, whatever the
    other arguments are; otherwise, for a second argument that is not a
    number, 'format required' when the format is not a string, and 'total
    required' only when the format is a string and the total is missing.
    It throws nothing else. *)
Theorem construction_error process_stderr fmt options :
  let r := new_ProgressBar process_stderr fmt options in
  (r = inl TypeError <-> is_nullish options = true) /\
  (r = inl (Error "invalid stream") <->
     is_nullish options = false /\ arg_stream process_stderr options = None) /\
  (r = inl (Error "format required") <->
     is_nullish options = false /\ is_number options = false /\
     arg_stream process_stderr options <> None /\ fmt = None) /\
  (r = inl (Error "total required") <->
     is_nullish options = false /\ is_number options = false /\
     arg_stream process_stderr options <> None /\ fmt <> None /\
     arg_total options = None) /\
  (forall e, r = inl e ->
     e = TypeError \/ e = Error "invalid stream" \/
     e = Error "format required" \/ e = Error "total required").
Proof.
  unfold new_ProgressBar.
  destruct options as [| | n | o |]; simpl.
  1, 2: repeat split; intros; try discriminate; try tauto;
        try (match goal with H : _ /\ _ |- _ => destruct H; discriminate end);
        injection H as <-; auto.
  - destruct process_stderr as [s|]; repeat split; intros; try discriminate;
      try tauto; try (injection H as <-; auto);
      repeat match goal with H : _ /\ _ |- _ => destruct H end;
      try discriminate; congruence.
  - destruct o as [ot ow os oc oi ort ocb ocl ou]; simpl.
    destruct os as [s|]; [|destruct process_stderr as [s|]];
      destruct fmt as [f|]; destruct ot as [t|];
      repeat split; intros; try discriminate; try tauto;
      try (injection H as <-; auto; fail);
      repeat match goal with H : _ /\ _ |- _ => destruct H end;
      try discriminate; try congruence.
  - destruct process_stderr as [s|]; destruct fmt as [f|];
      repeat split; intros; try discriminate; try tauto;
      try (injection H as <-; auto; fail);
      repeat match goal with H : _ /\ _ |- _ => destruct H end;
      try discriminate; try congruence.
Qed.

(** A returned bar is [init] of the resolved stream, the format, the
    options read and the total. *)
Lemma new_ProgressBar_init process_stderr format options b :
  new_ProgressBar process_stderr format options = inr b ->
  exists s o t,
    b = init s format o t /\
    Some t = arg_total options /\
    Some s = arg_stream process_stderr options /\
    o_width o = arg_width options.
Proof.
  unfold new_ProgressBar. intros H.
  destruct options as [| | n | o |]; try discriminate; simpl.
  - destruct process_stderr as [s|]; [|discriminate].
    injection H as <-. do 3 eexists.
    split; [reflexivity|split; [reflexivity|split; reflexivity]].
  - destruct o as [ot ow os oc oi ort ocb ocl ou]; simpl in *.
    destruct os as [s|]; [|destruct process_stderr as [s|]];
      try discriminate;
      (destruct format as [f|]; [|discriminate]);
      (destruct ot as [t|]; [|discriminate]);
      injection H as <-; do 3 eexists;
      (split; [reflexivity|split; [reflexivity|split; reflexivity]]).
  - destruct process_stderr; [destruct format|]; discriminate.
Qed.

Lemma new_ProgressBar_idle process_stderr format options b :
  new_ProgressBar process_stderr format options = inr b ->
  curr b = of_Z 0 /\ lastDraw b = "" /\ renderThrottleTimeout b = None.
Proof.
  intros H. destruct (new_ProgressBar_init _ _ _ _ H) as (s & o & t & -> & _).
  repeat split.
Qed.

(** X5.  A bar the constructor returns is idle: the counter is 0, nothing
    is drawn, no tokens, no start time, no timer, not complete.  It carries
    the given total, format and the resolved stream; its glyphs are not
    empty, its throttle is a number, and its width is [options.width] when
    that is a number other than 0 and [NaN], and the total otherwise (no
    width given, a bare number as second argument, width 0 or [NaN]). *)
Theorem constructed_bar process_stderr format options b :
  new_ProgressBar process_stderr format options = inr b ->
  curr b = of_Z 0 /\ complete b = false /\ lastDraw b = "" /\
  tokens b = [] /\ start b = None /\ renderThrottleTimeout b = None /\
  Some (total b) = arg_total options /\
  Some (stream b) = arg_stream process_stderr options /\
  fmt b = format /\
  chars_complete b <> "" /\ chars_incomplete b <> "" /\
  isNaN (renderThrottle b) = false /\
  width b
    = match arg_width options with
      | Some n => if truthy n then n else total b
      | None => total b
      end.
Proof.
  intros H.
  destruct (new_ProgressBar_init _ _ _ _ H)
    as (s & o & t & -> & Ht & Hs & Hw).
  rewrite <- Hw. simpl. repeat split; try assumption.
  - apply string_or_not_empty. discriminate.
  - apply string_or_not_empty. discriminate.
  - destruct (o_renderThrottle o) as [n|]; [|reflexivity].
    destruct (n =? of_Z 0)%num; [reflexivity|].
    apply (num_or_not_NaN (Some n)). reflexivity.
Qed.

(** ** The methods as functions of the world *)

Lemma terminate_unfold w :
  terminate w
  = Return tt {| this := this w;
                 log := log w ++ enter_terminate :: terminate_events (this w);
                 clock := clock w;
                 timers := timers w;
                 next_timer := next_timer w |}.
Proof.
  unfold terminate, terminate_events, bind, emit, get_this. simpl.
  destruct (clear (this w) && isTTY (stream (this w))); simpl;
    rewrite <- ?app_assoc; reflexivity.
Qed.

Lemma bar_log_unfold formatted w :
  bar_log formatted w = Return tt (logged formatted w).
Proof.
  unfold bar_log, logged, bind, emit, get_this, ret, newline.
  destruct (isTTY (stream (this w))) eqn:E; simpl; rewrite ?E; simpl;
    rewrite <- ?app_assoc; reflexivity.
Qed.

Lemma tick_complete_unfold w :
  tick_complete w
  = match (match renderThrottleTimeout (this w) with
           | Some _ => render None w
           | None => Return tt w
           end) with
    | Return _ w' => Return tt (completed w')
    | Throw e w' => Throw e w'
    end.
Proof.
  unfold tick_complete, bind, get_this.
  destruct (renderThrottleTimeout (this w));
    [destruct (render None w) as [[] w'|e w']; [|reflexivity] | unfold ret];
    unfold modify_this; rewrite terminate_unfold; unfold emit, completed;
    simpl; rewrite <- ?app_assoc; reflexivity.
Qed.

Lemma tick_advance_world len given w :
  exists w1, tick_advance len given w = Return tt w1 /\
    same_config (this w) (this w1) /\
    curr (this w1) = (curr (this w) + tick_len len)%num /\
    lastDraw (this w1) = lastDraw (this w) /\
    complete (this w1) = complete (this w) /\
    log w1 = log w /\ clock w1 = clock w /\
    tokens (this w1)
      = match tick_tokens len given with
        | Some t => t
        | None => tokens (this w)
        end /\
    start (this w1)
      = (if (of_Z 0 =? curr (this w))%num then Some (clock w)
         else start (this w)) /\
    match renderThrottleTimeout (this w) with
    | Some h =>
        renderThrottleTimeout (this w1) = Some h /\ timers w1 = timers w
    | None =>
        renderThrottleTimeout (this w1) = Some (next_timer w) /\
        timers w1 = (timers w ++ [(next_timer w, renderThrottle (this w))])%list
    end.
Proof.
  unfold tick_advance, bind, get_this, modify_this, ret, new_Date, setTimeout,
    same_config.
  destruct (tick_tokens len given); simpl;
    destruct (of_Z 0 =? curr (this w))%num; simpl;
    destruct (renderThrottleTimeout (this w)) eqn:R; simpl;
    eexists; (split; [reflexivity|]); simpl; rewrite ?R; repeat split.
Qed.

Lemma same_config_refl b : same_config b b.
Proof. unfold same_config. repeat split. Qed.

Lemma same_config_trans b1 b2 b3 :
  same_config b1 b2 -> same_config b2 b3 -> same_config b1 b3.
Proof.
  unfold same_config. intros H1 H2.
  decompose [and] H1. decompose [and] H2. repeat split; congruence.
Qed.

(** What a call of [render] does to the world, whether it returns or
    throws. *)
Lemma render_world given w :
  let w' := world_of (render given w) in
  same_config (this w) (this w') /\
  renderThrottleTimeout (this w') = None /\
  timers w' = timers (after_render_entry given w) /\
  clock w' = clock w /\
  curr (this w') = curr (this w) /\ complete (this w') = complete (this w) /\
  start (this w') = start (this w) /\
  tokens (this w')
    = match given with Some t => t | None => tokens (this w) end /\
  ((lastDraw (this w') = lastDraw (this w) /\ log w' = log w) \/
   (log w' = log w ++ [cursorTo 0; write (lastDraw (this w'));
                       clearLine (Some 1%Z)])%list).
Proof.
  rewrite render_unfold. cbv zeta.
  assert (E : same_config (this w) (this (after_render_entry given w)) /\
              renderThrottleTimeout (this (after_render_entry given w)) = None /\
              curr (this (after_render_entry given w)) = curr (this w) /\
              complete (this (after_render_entry given w)) = complete (this w) /\
              start (this (after_render_entry given w)) = start (this w) /\
              lastDraw (this (after_render_entry given w)) = lastDraw (this w) /\
              tokens (this (after_render_entry given w))
                = match given with Some t => t | None => tokens (this w) end).
  { unfold same_config. destruct given; simpl; repeat split. }
  destruct E as (Ec & Eh & Ecu & Eco & Est & El & Et).
  generalize (render_line (this (after_render_entry given w)) (clock w)).
  intros rl.
  destruct (isTTY (stream (this w))); simpl;
    [destruct rl as [e|str]; simpl;
     [|destruct (String.eqb (lastDraw (this w)) str); simpl] |];
    (split; [first [exact Ec | unfold same_config in *; simpl; exact Ec]|]);
    repeat split; try assumption; try reflexivity;
    first [left; split; [assumption|reflexivity] | right; reflexivity].
Qed.

(** What a call of [tick] does to the world. *)
Lemma tick_world len given w :
  let r := tick len given w in
  let w' := world_of r in
  same_config (this w) (this w') /\
  curr (this w') = (curr (this w) + tick_len len)%num /\
  clock w' = clock w /\
  start (this w')
    = (if (of_Z 0 =? curr (this w))%num then Some (clock w)
       else start (this w)) /\
  tokens (this w')
    = match tick_tokens len given with
      | Some t => t
      | None => tokens (this w)
      end /\
  (one_timer w -> one_timer w') /\
  (last_line_written w -> last_line_written w').
Proof.
  unfold tick, bind.
  destruct (tick_advance_world len given w)
    as (w1 & -> & Hc & Hcu & Hl & Hco & Hlog & Hclk & Htok & Hst & Ht).
  unfold get_this.
  assert (H1 : one_timer w -> one_timer w1).
  { unfold one_timer. destruct (renderThrottleTimeout (this w)) as [h|];
      destruct Ht as [-> ->].
    - auto.
    - intros ->. eexists. reflexivity. }
  assert (H2 : last_line_written w -> last_line_written w1).
  { unfold last_line_written. rewrite Hl, Hlog. auto. }
  destruct (curr (this w1) >=? total (this w1))%num;
    [|simpl; split; [exact Hc|]; repeat split; assumption].
  rewrite tick_complete_unfold.
  assert (Hsome : exists h, renderThrottleTimeout (this w1) = Some h).
  { destruct (renderThrottleTimeout (this w)); destruct Ht as [-> _]; eauto. }
  destruct Hsome as [h Hh]. rewrite Hh.
  pose proof (render_world None w1) as R. cbv zeta in R.
  destruct R as (Rc & Rh & Rt & Rclk & Rcu & Rco & Rst & Rtok & Rl).
  assert (Rtimers : one_timer w1 -> timers (world_of (render None w1)) = []).
  { intros O. rewrite Rt. unfold one_timer in O. rewrite Hh in O.
    destruct O as [d O]. simpl. rewrite Hh, O. simpl.
    rewrite Nat.eqb_refl. reflexivity. }
  assert (Rll : last_line_written w1 ->
                last_line_written (world_of (render None w1))).
  { unfold last_line_written. destruct Rl as [[-> ->] | ->]; [auto|].
    intros _. right. apply in_or_app. right. simpl. auto. }
  destruct (render None w1) as [[] w2|e w2]; simpl in *.
  - split; [eapply same_config_trans; [exact Hc|];
            eapply same_config_trans; [exact Rc|];
            unfold same_config; simpl; repeat split|].
    repeat split; try congruence.
    + intros O. unfold one_timer. simpl. rewrite Rh. auto.
    + intros L. specialize (Rll (H2 L)). unfold last_line_written in *.
      simpl. destruct Rll as [E | I]; [left; exact E|].
      right. apply in_or_app. left. exact I.
  - split; [eapply same_config_trans; eassumption|].
    repeat split; try congruence.
    + intros O. unfold one_timer. rewrite Rh. auto.
    + auto.
Qed.

(** ** Invariants of every run *)

Lemma world_of_bind {A B : Type} (m : M A) (k : A -> M B) w :
  world_of (bind m k w)
  = match m w with
    | Return a w' => world_of (k a w')
    | Throw _ w' => w'
    end.
Proof. unfold bind. destruct (m w); reflexivity. Qed.

Lemma act_all_invariant (P : World -> Prop) :
  (forall a w, P w -> P (world_of (act a w))) ->
  forall actions w, P w -> P (world_of (act_all actions w)).
Proof.
  intros Hstep actions. induction actions as [|a actions IH]; intros w Hw.
  - exact Hw.
  - simpl. rewrite world_of_bind. specialize (Hstep a w Hw).
    destruct (act a w) as [[] w'|e w']; simpl in Hstep; auto.
Qed.

Lemma one_timer_cleared h w :
  one_timer w ->
  match renderThrottleTimeout (this w) with
  | Some h0 =>
      filter (fun t => negb (Nat.eqb (fst t) h0))
        (filter (fun t => negb (Nat.eqb (fst t) h)) (timers w))
  | None => filter (fun t => negb (Nat.eqb (fst t) h)) (timers w)
  end = [] /\
  match renderThrottleTimeout (this w) with
  | Some h0 => filter (fun t => negb (Nat.eqb (fst t) h0)) (timers w)
  | None => timers w
  end = [].
Proof.
  unfold one_timer. destruct (renderThrottleTimeout (this w)) as [h0|].
  - intros [d ->]. simpl. rewrite Nat.eqb_refl. simpl.
    destruct (Nat.eqb h0 h); simpl; rewrite ?Nat.eqb_refl; auto.
  - intros ->. auto.
Qed.

Lemma act_preserves b0 a w :
  one_timer w /\ same_config b0 (this w) /\ last_line_written w ->
  one_timer (world_of (act a w)) /\
  same_config b0 (this (world_of (act a w))) /\
  last_line_written (world_of (act a w)).
Proof.
  intros (O & C & L).
  assert (Hrender : forall given w0,
    this w0 = this w -> log w0 = log w ->
    timers (after_render_entry given w0) = [] ->
    one_timer (world_of (render given w0)) /\
    same_config b0 (this (world_of (render given w0))) /\
    last_line_written (world_of (render given w0))).
  { intros given w0 Ethis Elog Etimers.
    pose proof (render_world given w0) as R. cbv zeta in R.
    destruct R as (Rc & Rh & Rt & _ & _ & _ & _ & _ & Rl).
    split; [unfold one_timer; rewrite Rh, Rt; exact Etimers|].
    split; [eapply same_config_trans; [exact C|]; rewrite <- Ethis; exact Rc|].
    unfold last_line_written in *.
    destruct Rl as [[-> ->] | ->].
    - rewrite Ethis, Elog. exact L.
    - right. apply in_or_app. right. simpl. auto. }
  destruct a as [[len given | ratio given | given | h | ms] | formatted |]; simpl.
  - pose proof (tick_world len given w) as T. cbv zeta in T.
    destruct T as (Tc & _ & _ & _ & _ & TO & TL).
    split; [auto|]. split; [eapply same_config_trans; eassumption | auto].
  - unfold update, bind, get_this.
    match goal with |- context [tick ?l ?g w] =>
      pose proof (tick_world l g w) as T end.
    cbv zeta in T. destruct T as (Tc & _ & _ & _ & _ & TO & TL).
    split; [auto|]. split; [eapply same_config_trans; eassumption | auto].
  - apply Hrender; try reflexivity.
    simpl. apply (one_timer_cleared 0%nat w O).
  - unfold fire. destruct (existsb _ (timers w)); simpl; [|auto].
    apply Hrender; try reflexivity.
    simpl. apply (one_timer_cleared h w O).
  - auto.
  - rewrite bar_log_unfold. simpl. split; [exact O|]. split; [exact C|].
    unfold last_line_written in *. simpl. destruct L as [L | L]; [auto|].
    right. apply in_or_app. left. exact L.
  - rewrite terminate_unfold. simpl. split; [exact O|]. split; [exact C|].
    unfold last_line_written in *. simpl. destruct L as [L | L]; [auto|].
    right. apply in_or_app. left. exact L.
Qed.

Lemma attainable_invariants b t actions :
  renderThrottleTimeout b = None -> lastDraw b = "" ->
  let w := world_of (act_all actions (boot b t)) in
  one_timer w /\ same_config b (this w) /\ last_line_written w.
Proof.
  intros Hh Hl.
  apply (act_all_invariant
           (fun w => one_timer w /\ same_config b (this w) /\
                     last_line_written w)).
  - intros a w. apply act_preserves.
  - split; [unfold one_timer; simpl; rewrite Hh; reflexivity|].
    split; [apply same_config_refl | left; exact Hl].
Qed.

(** X6.  At most one render is pending: in every world the host can bring
    about, no timer is set while the bar holds no handle, and exactly one,
    the one of the handle, while it holds one. *)
Theorem attainable_one_timer w : attainable w -> one_timer w.
Proof.
  intros (ps & f & o & b & t & actions & Hnew & ->).
  destruct (new_ProgressBar_idle _ _ _ _ Hnew) as (_ & Hl & Hh).
  apply (attainable_invariants b t actions Hh Hl).
Qed.

(** X7.  No method changes what the constructor set up: stream, format,
    total, units, width, clear flag, glyphs, throttle and callback of a bar
    stay as constructed through every run of calls. *)
Theorem config_is_fixed process_stderr format options b t actions :
  new_ProgressBar process_stderr format options = inr b ->
  same_config b (this (world_of (act_all actions (boot b t)))).
Proof.
  intros Hnew.
  destruct (new_ProgressBar_idle _ _ _ _ Hnew) as (_ & Hl & Hh).
  apply (attainable_invariants b t actions Hh Hl).
Qed.

(** X8.  [lastDraw] is never made up: in every world the host can bring
    about it is empty or a line that was written to the stream. *)
Theorem attainable_last_line_written w : attainable w -> last_line_written w.
Proof.
  intros (ps & f & o & b & t & actions & Hnew & ->).
  destruct (new_ProgressBar_idle _ _ _ _ Hnew) as (_ & Hl & Hh).
  apply (attainable_invariants b t actions Hh Hl).
Qed.

(** ** [tick] *)

(** [tick] as its first half followed, when the counter has reached the
    total, by a render and the completion. *)
Lemma tick_unfold len given w :
  exists w1,
    tick_advance len given w = Return tt w1 /\
    tick len given w
    = if (curr (this w) + tick_len len >=? total (this w))%num
      then match render None w1 with
           | Return _ w2 => Return tt (completed w2)
           | Throw e w2 => Throw e w2
           end
      else Return tt w1.
Proof.
  destruct (tick_advance_world len given w)
    as (w1 & E & Hc & Hcu & _ & _ & _ & _ & _ & _ & Ht).
  exists w1. split; [exact E|].
  unfold tick, bind. rewrite E. unfold get_this.
  destruct Hc as (_ & _ & Htot & _). rewrite Hcu, Htot.
  destruct (curr (this w) + tick_len len >=? total (this w))%num;
    [|reflexivity].
  rewrite tick_complete_unfold.
  destruct (renderThrottleTimeout (this w)); destruct Ht as [-> _];
    reflexivity.
Qed.

(** X9.  A missing increment counts as 1, and so does [NaN]; a tokens
    object in first place is [tick(1, tokens)], whatever was passed second;
    [tick(0)] adds 0, which leaves a finite counter at its value. *)
Theorem tick_default_increment given t w :
  tick len_undefined given w = tick (len_number (of_Z 1)) given w /\
  tick (len_number NaN) given w = tick (len_number (of_Z 1)) given w /\
  tick (len_object t) given w = tick (len_number (of_Z 1)) (Some t) w /\
  curr (this (world_of (tick (len_number (of_Z 0)) given w)))
    = (curr (this w) + of_Z 0)%num /\
  (isFinite (curr (this w)) = true ->
   (curr (this (world_of (tick (len_number (of_Z 0)) given w)))
      =? curr (this w))%num = true).
Proof.
  split; [reflexivity|]. split; [reflexivity|]. split; [reflexivity|].
  pose proof (tick_world (len_number (of_Z 0)) given w) as T. cbv zeta in T.
  destruct T as (_ & Hc & _). split; [exact Hc|].
  intros Hfin. rewrite Hc.
  destruct (curr (this w)) as [| | |c]; try discriminate.
  change (Fin c + tick_len (len_number (of_Z 0)))%num
    with (Fin (Qred (c + 0))).
  apply eqb_Fin. rewrite Qred_correct. lra.
Qed.

(** X10.  A [tick] that leaves the counter below the total is silent: it
    returns, calls nothing on the stream, neither [terminate] nor the
    callback, keeps [lastDraw] and the [complete] flag, and leaves exactly
    one render pending. *)
Theorem tick_below_total_is_quiet len given w :
  one_timer w ->
  (curr (this w) + tick_len len >=? total (this w))%num = false ->
  exists w',
    tick len given w = Return tt w' /\
    log w' = log w /\
    lastDraw (this w') = lastDraw (this w) /\
    complete (this w') = complete (this w) /\
    exists h delay,
      renderThrottleTimeout (this w') = Some h /\ timers w' = [(h, delay)].
Proof.
  intros O Hlt.
  destruct (tick_unfold len given w) as (w1 & E & ->). rewrite Hlt.
  destruct (tick_advance_world len given w)
    as (w1' & E' & _ & _ & Hl & Hco & Hlog & _ & _ & _ & Ht).
  rewrite E in E'. injection E' as <-.
  exists w1. repeat split; try assumption.
  unfold one_timer in O.
  destruct (renderThrottleTimeout (this w)) as [h|]; destruct Ht as [Hh Hti].
  - destruct O as [d O]. exists h, d. rewrite Hh, Hti, O. auto.
  - exists (next_timer w), (renderThrottle (this w)).
    rewrite Hh, Hti, O. auto.
Qed.

(** X11.  On a stream that is not a terminal, a [tick] that brings the
    counter to the total or beyond returns, writes exactly a newline between
    the entry into [terminate] and the call of the callback, sets
    [complete], and leaves no render pending. *)
Theorem tick_completes_on_a_pipe len given w :
  isTTY (stream (this w)) = false ->
  one_timer w ->
  (curr (this w) + tick_len len >=? total (this w))%num = true ->
  exists w',
    tick len given w = Return tt w' /\
    log w' = (log w ++ [enter_terminate; write newline;
                        enter_callback (callback (this w))])%list /\
    complete (this w') = true /\
    renderThrottleTimeout (this w') = None /\
    timers w' = [].
Proof.
  intros Htty O Hge.
  destruct (tick_unfold len given w) as (w1 & E & ->). rewrite Hge.
  destruct (tick_advance_world len given w)
    as (w1' & E' & Hc & _ & _ & _ & Hlog & _ & _ & _ & Ht).
  rewrite E in E'. injection E' as <-.
  destruct Hc as (Hs & _ & _ & _ & _ & Hcl & _ & _ & _ & Hcb).
  rewrite render_unfold. cbv zeta. rewrite Hs, Htty. simpl.
  eexists. split; [reflexivity|]. simpl.
  unfold terminate_events.
  change (stream (set_renderThrottleTimeout None (this w1)))
    with (stream (this w1)).
  rewrite Hs, Htty, andb_false_r, Hlog, Hcb.
  split; [reflexivity|]. split; [reflexivity|]. split; [reflexivity|].
  unfold one_timer in O.
  destruct (renderThrottleTimeout (this w)) as [h|]; destruct Ht as [-> ->].
  - destruct O as [d ->]. simpl. rewrite Nat.eqb_refl. reflexivity.
  - rewrite O. simpl. rewrite Nat.eqb_refl. reflexivity.
Qed.

(** ** [render] *)

(** The line depends on the configuration, the counter, the tokens and the
    start time only. *)
Lemma render_line_ext b b' now :
  same_config b b' -> curr b' = curr b -> tokens b' = tokens b ->
  start b' = start b -> render_line b' now = render_line b now.
Proof.
  unfold same_config. intros H Hc Ht Hs. decompose [and] H.
  unfold render_line, render_template, bar_glyphs, bar_width, availableSpace,
    render_ratio, render_elapsed, estimate, remaining.
  repeat match goal with
         | E : ?f b' = ?f b |- _ => rewrite E; clear E
         end.
  reflexivity.
Qed.

(** After a render that returns on a terminal, [lastDraw] is the line of
    the state the bar is in. *)
Lemma render_draws_current given w w' :
  isTTY (stream (this w)) = true ->
  render given w = Return tt w' ->
  render_line (this w') (clock w) = inr (lastDraw (this w')) /\
  renderThrottleTimeout (this w') = None /\
  clock w' = clock w /\ stream (this w') = stream (this w).
Proof.
  intros Htty. rewrite render_unfold. cbv zeta. rewrite Htty. simpl.
  destruct (render_line (render_entry given (this w)) (clock w))
    as [e|str] eqn:E; [discriminate|].
  destruct (String.eqb_spec (lastDraw (this w)) str) as [Heq | Hne];
    intros H; injection H as <-; simpl.
  - rewrite E. destruct given; simpl; subst str; repeat split.
  - split; [|destruct given; repeat split].
    rewrite <- E. apply render_line_ext; try reflexivity.
    unfold same_config. simpl. repeat split.
Qed.

(** Rendering a bar that holds no timer and whose [lastDraw] is its line
    changes nothing. *)
Lemma render_fixed w :
  renderThrottleTimeout (this w) = None ->
  (isTTY (stream (this w)) = false \/
   render_line (this w) (clock w) = inr (lastDraw (this w))) ->
  render None w = Return tt w.
Proof.
  intros Hh H. rewrite render_unfold. cbv zeta.
  assert (E : after_render_entry None w = w).
  { unfold after_render_entry. rewrite Hh.
    destruct w as [b l c ts n]. simpl in *. f_equal.
    destruct b. simpl in *. subst. reflexivity. }
  rewrite E. destruct H as [-> | ->]; [reflexivity|].
  rewrite String.eqb_refl. destruct (isTTY (stream (this w))); reflexivity.
Qed.

(** X12.  [render] is idempotent: after a call of [render] that returned,
    a call [render()] at the same time returns and changes nothing, neither
    the bar nor the log nor the timers. *)
Theorem render_twice given w w' :
  render given w = Return tt w' -> render None w' = Return tt w'.
Proof.
  intros H. destruct (isTTY (stream (this w))) eqn:Htty.
  - destruct (render_draws_current given w w' Htty H) as (Hl & Hh & Hc & _).
    apply render_fixed; [exact Hh|]. right. rewrite Hc. exact Hl.
  - rewrite render_unfold in H. cbv zeta in H. rewrite Htty in H. simpl in H.
    injection H as <-. apply render_fixed.
    + destruct given; reflexivity.
    + left. destruct given; exact Htty.
Qed.

(** X13.  When a [tick] that reaches the total returns on a terminal, the
    final state is on the screen: [lastDraw] is the line of the bar as the
    call leaves it, the bar is complete, and no render is pending. *)
Theorem tick_completion_draws_final_state len given w w' :
  isTTY (stream (this w)) = true ->
  (curr (this w) + tick_len len >=? total (this w))%num = true ->
  tick len given w = Return tt w' ->
  render_line (this w') (clock w') = inr (lastDraw (this w')) /\
  complete (this w') = true /\
  renderThrottleTimeout (this w') = None.
Proof.
  intros Htty Hge.
  destruct (tick_unfold len given w) as (w1 & E & ->). rewrite Hge.
  destruct (tick_advance_world len given w)
    as (w1' & E' & Hc & _ & _ & _ & _ & Hclk & _).
  rewrite E in E'. injection E' as <-.
  destruct Hc as (Hs & _).
  destruct (render None w1) as [[] w2|e w2] eqn:R; [|discriminate].
  intros H. injection H as <-.
  rewrite <- Hs in Htty.
  destruct (render_draws_current None w1 w2 Htty R) as (Hl & Hh & Hc2 & _).
  simpl. split; [|split; [reflexivity | exact Hh]].
  rewrite Hc2.
  change (lastDraw (set_complete true (this w2))) with (lastDraw (this w2)).
  rewrite <- Hl. apply render_line_ext; try reflexivity.
  unfold same_config. simpl. repeat split.
Qed.

(** X14.  A bar without a format string (the bare-number form allows it)
    cannot be drawn on a terminal: [render] throws a TypeError after it has
    cleared the timer, and a [tick] that reaches the total throws it too,
    before [complete] is set and before [terminate] and the callback are
    called. *)
Theorem render_without_format given w :
  fmt (this w) = None ->
  isTTY (stream (this w)) = true ->
  render given w = Throw TypeError (after_render_entry given w) /\
  forall len,
    (curr (this w) + tick_len len >=? total (this w))%num = true ->
    exists w',
      tick len given w = Throw TypeError w' /\
      log w' = log w /\
      complete (this w') = complete (this w).
Proof.
  intros Hf Htty. split.
  - rewrite render_unfold. cbv zeta. rewrite Htty. simpl.
    unfold render_line.
    replace (fmt (render_entry given (this w))) with (fmt (this w))
      by (destruct given; reflexivity).
    rewrite Hf. reflexivity.
  - intros len Hge.
    destruct (tick_unfold len given w) as (w1 & E & ->). rewrite Hge.
    destruct (tick_advance_world len given w)
      as (w1' & E' & Hc & _ & _ & Hco & Hlog & _).
    rewrite E in E'. injection E' as <-.
    destruct Hc as (Hs & Hfm & _).
    rewrite render_unfold. cbv zeta. rewrite Hs, Htty. simpl.
    unfold render_line.
    change (fmt (set_renderThrottleTimeout None (this w1)))
      with (fmt (this w1)).
    rewrite Hfm, Hf.
    eexists. split; [reflexivity|]. simpl. split; assumption.
Qed.






(** ** [estimate] *)

Lemma walk_down_to_zero values r n :
  (forall j, (1 <= j <= n)%nat -> (r <? nth j values NaN)%num = true) ->
  walk_down values r n = 0%nat.
Proof.
  induction n as [|n IH]; intros H; simpl; [reflexivity|].
  rewrite (H (S n)) by lia. apply IH. intros j Hj. apply H. lia.
Qed.

(** X16.  At 100 percent the estimate is "0.0" in the smallest unit,
    whatever the elapsed time and the counter are, on every table whose
    units above the first are positive. *)
Theorem estimate_at_100_percent b elapsed percent :
  (percent =? of_Z 100)%num = true ->
  (forall j, (1 <= j < List.length (UnitTable.values (units b)))%nat ->
     (of_Z 0 <? nth j (UnitTable.values (units b)) NaN)%num = true) ->
  estimate b elapsed percent
  = {| eta := None; value := Some "0.0";
       suffix := item (labels (units b)) 0 |}.
Proof.
  intros Hp Hpos. unfold estimate, remaining. rewrite Hp.
  change (of_Z 0 / of_Z 1000)%num with (of_Z 0). simpl.
  rewrite walk_down_to_zero; [reflexivity|].
  intros j Hj. apply Hpos. lia.
Qed.

(** ** [update] *)

Lemma update_world ratio given w :
  update ratio given w
  = tick (len_number (Math_floor (ratio * total (this w)) - curr (this w))%num)
      given w.
Proof. reflexivity. Qed.

(** Adding the difference to a finite counter gives the goal. *)
Lemma add_difference c z :
  (Fin c + tick_len (len_number (of_Z z - Fin c)))%num = of_Z z.
Proof.
  unfold sub, neg, add at 2, of_Z. rewrite tick_len_finite.
  unfold add, of_Z. f_equal. rewrite <- Qred_inject_Z.
  apply Qred_complete. rewrite !Qred_correct. ring.
Qed.

(** A whole number is finite; within 2^52 the sums and differences the
    code forms with such numbers are exact in binary64 as well. *)
Lemma to_integer_finite a z : to_integer a = Some z -> isFinite a = true.
Proof. destruct a; try discriminate. reflexivity. Qed.

Lemma Math_floor_finite a z : Math_floor a = of_Z z -> isFinite a = true.
Proof. destruct a; try discriminate. reflexivity. Qed.

(** X17.  [update] is absolute on whole numbers in the exact range: when
    the counter and the goal [floor(ratio * total)] are whole numbers of
    magnitude at most 2^52, it sets the counter to the goal, wherever in
    that range the counter was; so a second [update] with the same ratio
    leaves the counter where the first put it. *)
Theorem update_sets_curr ratio given given' w c g :
  to_integer (curr (this w)) = Some c -> (Z.abs c <= 2 ^ 52)%Z ->
  Math_floor (ratio * total (this w))%num = of_Z g -> (Z.abs g <= 2 ^ 52)%Z ->
  curr (this (world_of (update ratio given w))) = of_Z g /\
  curr (this (world_of (update ratio given'
                          (world_of (update ratio given w)))))
    = curr (this (world_of (update ratio given w))).
Proof.
  intros Hc _ Hg _.
  pose proof (to_integer_finite _ _ Hc) as Hcf.
  pose proof (Math_floor_finite _ _ Hg) as Hp.
  assert (Hone : forall g0 w0,
    isFinite (curr (this w0)) = true -> total (this w0) = total (this w) ->
    curr (this (world_of (update ratio g0 w0))) = of_Z g).
  { intros g0 w0 Hc0 Ht0. rewrite update_world.
    match goal with |- context [tick ?l g0 w0] =>
      pose proof (tick_world l g0 w0) as T end.
    cbv zeta in T. destruct T as (_ & -> & _). rewrite Ht0, Hg.
    destruct (curr (this w0)) as [| | |x]; try discriminate.
    apply add_difference. }
  split; [apply Hone; [exact Hcf | reflexivity]|].
  assert (Ht : total (this (world_of (update ratio given w)))
               = total (this w)).
  { rewrite update_world.
    match goal with |- context [tick ?l given w] =>
      pose proof (tick_world l given w) as T end.
    cbv zeta in T. destruct T as ((_ & _ & Ht & _) & _). exact Ht. }
  rewrite (Hone given' (world_of (update ratio given w))).
  - symmetry. apply Hone; [exact Hcf | reflexivity].
  - rewrite (Hone given w Hcf eq_refl). reflexivity.
  - exact Ht.
Qed.

Lemma mul_one_of_Z t : (of_Z 1 * of_Z t)%num = of_Z t.
Proof.
  unfold mul, of_Z. f_equal.
  transitivity (Qred (inject_Z t)); [|apply Qred_inject_Z].
  apply Qred_complete. ring.
Qed.

(** X18.  On a bar whose total and counter are whole numbers of magnitude
    at most 2^52, [update(1)] sets the counter to the total and completes
    the bar: when the call returns, [complete] is set and the last thing it
    did was to call the callback. *)
Theorem update_to_one_completes given w c t :
  to_integer (curr (this w)) = Some c -> (Z.abs c <= 2 ^ 52)%Z ->
  total (this w) = of_Z t -> (Z.abs t <= 2 ^ 52)%Z ->
  curr (this (world_of (update (of_Z 1) given w))) = of_Z t /\
  forall w',
    update (of_Z 1) given w = Return tt w' ->
    complete (this w') = true /\
    exists events,
      log w' = (log w ++ events ++ [enter_callback (callback (this w))])%list.
Proof.
  intros Hci _ Ht _. pose proof (to_integer_finite _ _ Hci) as Hc. clear Hci.
  rewrite update_world, Ht, mul_one_of_Z.
  change (Math_floor (of_Z t)) with (of_Z (Qfloor (inject_Z t))).
  rewrite Qfloor_Z.
  destruct (curr (this w)) as [| | |x] eqn:Ec; try discriminate.
  pose proof (tick_world (len_number (of_Z t - Fin x)%num) given w) as T.
  cbv zeta in T. destruct T as (_ & Tc & _).
  rewrite Ec, add_difference in Tc. split; [exact Tc|].
  intros w'.
  destruct (tick_unfold (len_number (of_Z t - Fin x)%num) given w)
    as (w1 & E & ->).
  rewrite Ec, add_difference, Ht.
  replace (of_Z t >=? of_Z t)%num with true.
  2: { symmetry. unfold geb. apply orb_true_iff. right. apply eqb_Fin.
       reflexivity. }
  destruct (tick_advance_world (len_number (of_Z t - Fin x)%num) given w)
    as (w1' & E' & Hcfg & _ & _ & _ & Hlog & _).
  rewrite E in E'. injection E' as <-.
  pose proof (render_world None w1) as R. cbv zeta in R.
  destruct R as (Rc & _ & _ & _ & _ & _ & _ & _ & Rl).
  destruct (render None w1) as [[] w2|e w2]; [|discriminate].
  intros H. injection H as <-. simpl in *.
  split; [reflexivity|].
  assert (Hcb : callback (this w2) = callback (this w)).
  { destruct Rc as (_ & _ & _ & _ & _ & _ & _ & _ & _ & Rcb).
    destruct Hcfg as (_ & _ & _ & _ & _ & _ & _ & _ & _ & Hcb).
    congruence. }
  rewrite Hcb.
  destruct Rl as [[_ ->] | ->]; rewrite Hlog.
  - exists (enter_terminate :: terminate_events (this w2)). reflexivity.
  - exists ([cursorTo 0; write (lastDraw (this w2)); clearLine (Some 1%Z)]
            ++ enter_terminate :: terminate_events (this w2))%list.
    repeat rewrite <- app_assoc. reflexivity.
Qed.

(** ** [log] *)

(** X19.  [log] never touches the bar or its timers.  After a render that
    returned on a terminal it clears the line, writes the message and a
    newline, and writes again the line the bar is showing, which is the
    line of its current state; on a stream that is not a terminal it writes
    the message and a newline only. *)
Theorem log_puts_the_bar_back given formatted w w1 :
  render given w = Return tt w1 ->
  bar_log formatted w1 = Return tt (logged formatted w1) /\
  this (logged formatted w1) = this w1 /\
  timers (logged formatted w1) = timers w1 /\
  (isTTY (stream (this w)) = true ->
   render_line (this w1) (clock w1) = inr (lastDraw (this w1)) /\
   log (logged formatted w1)
     = (log w1 ++ [clearLine None; cursorTo 0; write (formatted ++ newline);
                   write (lastDraw (this w1))])%list) /\
  (isTTY (stream (this w)) = false ->
   log (logged formatted w1)
     = (log w1 ++ [write (formatted ++ newline)])%list).
Proof.
  intros H. split; [apply bar_log_unfold|].
  split; [reflexivity|]. split; [reflexivity|].
  pose proof (render_world given w) as R. cbv zeta in R. rewrite H in R.
  simpl in R. destruct R as ((Rs & _) & _).
  unfold logged. simpl. rewrite Rs. split; intros Htty; rewrite Htty.
  - destruct (render_draws_current given w w1 Htty H) as (Hl & _ & Hc & _).
    rewrite Hc. split; [exact Hl | reflexivity].
  - reflexivity.
Qed.

(** ** The template *)

Lemma find_absent c p s : occurs c s = false -> find (String c p) s = None.
Proof.
  induction s as [|d s IH]; simpl; intros H; [reflexivity|].
  apply orb_false_iff in H. destruct H as [Hcd Hs].
  destruct (ascii_dec c d) as [-> | Hne];
    [rewrite Ascii.eqb_refl in Hcd; discriminate|].
  rewrite (IH Hs). reflexivity.
Qed.

Lemma replace_absent c p repl s :
  occurs c s = false -> replace (String c p) repl s = s.
Proof. intros H. unfold replace. rewrite (find_absent c p s H). reflexivity. Qed.

Lemma replace_tokens_absent tokens s :
  occurs ":" s = false -> replace_tokens tokens s = s.
Proof.
  unfold replace_tokens. induction tokens as [|kv tokens IH]; simpl;
    intros H; [reflexivity|].
  rewrite (replace_absent ":" (fst kv) (snd kv) s H). apply IH, H.
Qed.

(** X20.  Text without a colon is drawn as it stands: when the format
    contains no [:], the line is the format itself, whatever the counter,
    the tokens and the clock are, provided the two runs of glyphs can be
    built (otherwise the RangeError is thrown all the same). *)
Theorem format_without_colon b f now :
  fmt b = Some f ->
  occurs ":" f = false ->
  render_line b now
  = match bar_glyphs b (bar_width b f) (render_ratio b) with
    | Some _ => inr f
    | None => inl RangeError
    end.
Proof.
  intros Hf Hc. unfold render_line. rewrite Hf.
  assert (Ht : render_template b f now = f).
  { unfold render_template.
    rewrite (replace_absent ":" "current" _ f Hc).
    rewrite (replace_absent ":" "total" _ f Hc).
    rewrite (replace_absent ":" "elapsed" _ f Hc).
    rewrite (replace_absent ":" "eta" _ f Hc).
    rewrite (replace_absent ":" "unit" _ f Hc).
    apply (replace_absent ":" "percent" _ f Hc). }
  rewrite Ht.
  destruct (bar_glyphs b (bar_width b f) (render_ratio b)) as [[c i]|];
    [|reflexivity].
  rewrite (replace_absent ":" "bar" _ f Hc).
  rewrite (replace_tokens_absent _ f Hc). reflexivity.
Qed.

(** ** Start time and tokens *)

(** X21.  The start time is the clock of the latest [tick] or [update]
    made while the counter was 0: such a call sets it, every other [tick]
    or [update] keeps it, and [render] never changes it. *)
Theorem start_is_set_at_zero len ratio given w :
  start (this (world_of (tick len given w)))
    = (if (of_Z 0 =? curr (this w))%num then Some (clock w)
       else start (this w)) /\
  start (this (world_of (update ratio given w)))
    = (if (of_Z 0 =? curr (this w))%num then Some (clock w)
       else start (this w)) /\
  start (this (world_of (render given w))) = start (this w).
Proof.
  split; [|split].
  - pose proof (tick_world len given w) as T. cbv zeta in T.
    destruct T as (_ & _ & _ & Hs & _). exact Hs.
  - rewrite update_world.
    match goal with |- context [tick ?l given w] =>
      pose proof (tick_world l given w) as T end.
    cbv zeta in T. destruct T as (_ & _ & _ & Hs & _). exact Hs.
  - pose proof (render_world given w) as R. cbv zeta in R.
    destruct R as (_ & _ & _ & _ & _ & _ & Hs & _). exact Hs.
Qed.

Lemma tick_tokens_number n given : tick_tokens (len_number n) given = given.
Proof.
  unfold tick_tokens, len_or_1.
  destruct (n =? of_Z 0)%num; [reflexivity|].
  destruct (truthy n); reflexivity.
Qed.

(** X22.  Tokens are replaced, not merged, and they stay until they are
    replaced: a [tick] or [render] that is given tokens leaves exactly
    these as the bar's tokens (for [tick], a tokens object in first place
    wins over the second argument), and a [tick] or [render] without tokens
    keeps the tokens of the bar. *)
Theorem tokens_are_replaced n t given w :
  tokens (this (world_of (tick (len_number n) (Some t) w))) = t /\
  tokens (this (world_of (tick (len_object t) given w))) = t /\
  tokens (this (world_of (tick (len_number n) None w))) = tokens (this w) /\
  tokens (this (world_of (tick len_undefined None w))) = tokens (this w) /\
  tokens (this (world_of (render (Some t) w))) = t /\
  tokens (this (world_of (render None w))) = tokens (this w).
Proof.
  repeat split.
  - pose proof (tick_world (len_number n) (Some t) w) as T. cbv zeta in T.
    destruct T as (_ & _ & _ & _ & -> & _).
    rewrite tick_tokens_number. reflexivity.
  - pose proof (tick_world (len_object t) given w) as T. cbv zeta in T.
    destruct T as (_ & _ & _ & _ & -> & _). reflexivity.
  - pose proof (tick_world (len_number n) None w) as T. cbv zeta in T.
    destruct T as (_ & _ & _ & _ & -> & _).
    rewrite tick_tokens_number. reflexivity.
  - pose proof (tick_world len_undefined None w) as T. cbv zeta in T.
    destruct T as (_ & _ & _ & _ & -> & _). reflexivity.
  - pose proof (render_world (Some t) w) as R. cbv zeta in R.
    destruct R as (_ & _ & _ & _ & _ & _ & _ & -> & _). reflexivity.
  - pose proof (render_world None w) as R. cbv zeta in R.
    destruct R as (_ & _ & _ & _ & _ & _ & _ & -> & _). reflexivity.
Qed.

End Methods.

(** * Instances *)

(** C1, as the specification states it, fails: on a bar with [total = 2]
    that writes to a pipe, three calls [tick()] enter [terminate] and the
    callback twice, once in the second call and again in the third. *)
Lemma completion_repeats : ~ completion_is_idempotent no_decimal.
Proof.
  intros H.
  destruct (H (Some pipe) (Some ":bar") (arg_object (options_total 2))
              (bar_on pipe ":bar" (options_total 2)) (of_Z 0)
              [tick1; tick1; tick1] eq_refl eq_refl) as [_ H2].
  vm_compute in H2. lia.
Qed.

(** The log of that run. *)
Example completion_repeats_log :
  log (world_of (perform_all no_decimal [tick1; tick1; tick1]
                   (boot (bar_on pipe ":bar" (options_total 2)) (of_Z 0))))
  = [enter_terminate; write (String (ascii_of_nat 10) ""); enter_callback noop;
     enter_terminate; write (String (ascii_of_nat 10) ""); enter_callback noop].
Proof. vm_compute. reflexivity. Qed.

(** C2, as the specification states it, fails on
    [new ProgressBar(":bar", {total: 10})]. *)
Lemma default_table_is_not_hms : ~ default_table_is_hms.
Proof.
  intros H.
  specialize (H (Some pipe) (Some ":bar") (arg_object (options_total 10))
                (bar_on pipe ":bar" (options_total 10)) eq_refl eq_refl).
  discriminate H.
Qed.

Lemma default_table_is_seconds_witness :
  units (bar_on pipe ":bar" (options_total 10))
    = {| labels := ["s"]; values := [of_Z 1] |} /\
  mkUnits defaultUnits
    = {| labels := ["s"; "m"; "h"];
         values := [of_Z 1; of_Z 60; of_Z 3600] |}.
Proof.
  apply (default_table_is_seconds (Some pipe) (Some ":bar")
           (arg_object (options_total 10))); reflexivity.
Defined.

(** The constructor does not meet the statement of the specification on
    [new ProgressBar(undefined, 10)]: there is no format, and it returns a
    bar. *)
Lemma construction_without_format : ~ construction_fails_iff_missing.
Proof.
  intros H.
  destruct (H (Some pipe) None (arg_number (of_Z 10))) as [_ H2].
  destruct H2 as [e He]; [right; left; reflexivity | discriminate He].
Qed.

(** C3, as the specification states it, fails on a bar with the units
    [ProgressBar.defaultUnits] that has not been ticked: the remaining time
    is not a number, the result has no [value], and its suffix is "h", the
    largest unit, where the smallest is "s". *)
Lemma degenerate_estimate_is_largest :
  ~ degenerate_estimate_is_zero_smallest no_decimal.
Proof.
  intros H.
  destruct (H (boot (bar_on terminal ":eta:unit" (options_units 10 defaultUnits))
                    (of_Z 0))
              NaN (of_Z 0)) as [_ H2].
  - exists (Some terminal), (Some ":eta:unit"),
      (arg_object (options_units 10 defaultUnits)),
      (bar_on terminal ":eta:unit" (options_units 10 defaultUnits)),
      (of_Z 0), []. split; reflexivity.
  - reflexivity.
  - discriminate H2.
Qed.

(** The result of [estimate] there, and on the table [{s: 1}]. *)
Example degenerate_estimate_values :
  estimate no_decimal
    (bar_on terminal ":eta:unit" (options_units 10 defaultUnits)) NaN (of_Z 0)
  = {| eta := Some "0.0"; value := None; suffix := Some "h" |} /\
  estimate no_decimal (bar_on terminal ":eta:unit" (options_total 10))
    NaN (of_Z 0)
  = {| eta := Some "0.0"; value := None; suffix := Some "s" |}.
Proof. split; reflexivity. Qed.

(** What [render] makes of that result: [eta.value] is [undefined]. *)
Example degenerate_estimate_line :
  render_line no_decimal (bar_on terminal ":eta:unit" (options_total 10))
    (of_Z 0) = inr "undefineds".
Proof. reflexivity. Qed.

Lemma degenerate_estimate_suffix_witness :
  degenerate (remaining (bar_on terminal ":eta:unit" (options_total 10))
                NaN (of_Z 0)) = true /\
  suffix (estimate no_decimal (bar_on terminal ":eta:unit" (options_total 10))
            NaN (of_Z 0)) = Some "s".
Proof.
  split; [reflexivity|].
  apply (degenerate_estimate_suffix no_decimal
           (bar_on terminal ":eta:unit" (options_total 10)) NaN (of_Z 0));
    reflexivity.
Defined.

Lemma ascending_defaultUnits : ascending (values (mkUnits defaultUnits)).
Proof.
  intros i j Hij. simpl in Hij.
  destruct i as [|[|[|i]]]; destruct j as [|[|[|j]]];
    try reflexivity; simpl in Hij; lia.
Qed.

(** C4, as the specification states it, fails on a bar with the units
    [ProgressBar.defaultUnits], [total = 100] and [curr = 50] after 120
    seconds: 120 seconds remain, minutes are selected, and the value is
    120 / 60 = "2.0", where dividing by the unit above the selected one
    (3600) gives "0.0". *)
Lemma estimate_divides_by_selected_unit :
  ~ estimate_scales_by_units_above no_decimal.
Proof.
  intros H.
  destruct (H (world_of
                 (perform_all no_decimal [call_tick (len_number (of_Z 50)) None]
                    (boot (bar_on terminal ":eta:unit"
                             (options_units 100 defaultUnits)) (of_Z 0))))
              (of_Z 120000) (of_Z 50))
    as (i & (Hi & Hat & Habove) & _ & Hvalue).
  - exists (Some terminal), (Some ":eta:unit"),
      (arg_object (options_units 100 defaultUnits)),
      (bar_on terminal ":eta:unit" (options_units 100 defaultUnits)),
      (of_Z 0), [call_tick (len_number (of_Z 50)) None].
    split; reflexivity.
  - exact ascending_defaultUnits.
  - reflexivity.
  - reflexivity.
  - destruct i as [|[|[|i]]].
    + specialize (Habove 1%nat). vm_compute in Habove.
      assert (false = true) by (apply Habove; lia). discriminate.
    + vm_compute in Hvalue. discriminate Hvalue.
    + destruct Hat as [Hat | Hat]; [discriminate Hat | vm_compute in Hat; discriminate Hat].
    + vm_compute in Hi. lia.
Qed.

(** The estimates on that bar after 120 seconds and after 7200 seconds (at
    one percent): two minutes, and "0.0" hours where two hours remain, since
    the hours are divided by 3600 and then by 60. *)
Example estimate_on_defaultUnits :
  estimate no_decimal
    (set_curr (of_Z 50) (bar_on terminal ":eta:unit" (options_units 100 defaultUnits)))
    (of_Z 120000) (of_Z 50)
  = {| eta := None; value := Some "2.0"; suffix := Some "m" |} /\
  remaining
    (set_curr (of_Z 50) (bar_on terminal ":eta:unit" (options_units 100 defaultUnits)))
    (of_Z 7200000) (of_Z 50) = of_Z 7200 /\
  estimate no_decimal
    (set_curr (of_Z 50) (bar_on terminal ":eta:unit" (options_units 100 defaultUnits)))
    (of_Z 7200000) (of_Z 50)
  = {| eta := None; value := Some "0.0"; suffix := Some "h" |}.
Proof. repeat split; reflexivity. Qed.

Lemma estimate_selects_and_scales_witness :
  exists i,
    selects (values (mkUnits defaultUnits)) (of_Z 120) i /\
    (forall j, (j < 3)%nat ->
       leb (nth j (values (mkUnits defaultUnits)) NaN) (of_Z 120) = true ->
       leb (nth j (values (mkUnits defaultUnits)) NaN)
           (nth i (values (mkUnits defaultUnits)) NaN) = true) /\
    suffix (estimate no_decimal
              (set_curr (of_Z 50)
                 (bar_on terminal ":eta:unit" (options_units 100 defaultUnits)))
              (of_Z 120000) (of_Z 50))
      = item ["s"; "m"; "h"] (Z.of_nat i) /\
    (i = 0%nat ->
     value (estimate no_decimal
              (set_curr (of_Z 50)
                 (bar_on terminal ":eta:unit" (options_units 100 defaultUnits)))
              (of_Z 120000) (of_Z 50)) = Some (toFixed no_decimal 1 (of_Z 120))) /\
    (i = 1%nat ->
     value (estimate no_decimal
              (set_curr (of_Z 50)
                 (bar_on terminal ":eta:unit" (options_units 100 defaultUnits)))
              (of_Z 120000) (of_Z 50))
       = Some (toFixed no_decimal 1 (of_Z 120 / of_Z 60)%num)).
Proof.
  apply (estimate_selects_and_scales no_decimal
           (set_curr (of_Z 50)
              (bar_on terminal ":eta:unit" (options_units 100 defaultUnits)))
           (of_Z 120000) (of_Z 50)).
  - discriminate.
  - exact ascending_defaultUnits.
  - reflexivity.
  - reflexivity.
Defined.

(** C6, as the specification states it, fails on a bar with [total = 10]
    after [tick(5)]: [update(0.2)] sets the counter back from 5 to 2. *)
Lemma update_moves_curr_back : ~ curr_never_decreases no_decimal.
Proof.
  intros H.
  specialize (H (world_of
                   (perform_all no_decimal [call_tick (len_number (of_Z 5)) None]
                      (boot (bar_on pipe ":bar" (options_total 10)) (of_Z 0))))
                (call_update (Fin (1 # 5)) None)).
  discriminate H.
  - exists (Some pipe), (Some ":bar"), (arg_object (options_total 10)),
      (bar_on pipe ":bar" (options_total 10)), (of_Z 0),
      [call_tick (len_number (of_Z 5)) None].
    split; reflexivity.
  - reflexivity.
  - reflexivity.
Qed.

(** The counter in that run. *)
Example update_moves_curr_back_values :
  map (fun calls =>
         curr (this (world_of
           (perform_all no_decimal calls
              (boot (bar_on pipe ":bar" (options_total 10)) (of_Z 0))))))
    [[call_tick (len_number (of_Z 5)) None];
     [call_tick (len_number (of_Z 5)) None; call_update (Fin (1 # 5)) None];
     [call_tick (len_number (of_Z 5)) None; call_tick (len_number (of_Z (-1))) None]]
  = [of_Z 5; of_Z 2; of_Z 4].
Proof. reflexivity. Qed.

Lemma curr_moves_with_the_increment_witness :
  leb (of_Z 0)
    (curr (this (world_of
       (tick no_decimal (len_number (of_Z 5)) None
          (boot (bar_on pipe ":bar" (options_total 10)) (of_Z 0)))))) = true /\
  leb (curr (this (world_of
         (tick no_decimal (len_number (of_Z (-1))) None
            (boot (bar_on pipe ":bar" (options_total 10)) (of_Z 0))))))
      (of_Z 0) = true /\
  leb (of_Z 0)
    (curr (this (world_of
       (update no_decimal (Fin (1 # 5)) None
          (boot (bar_on pipe ":bar" (options_total 10)) (of_Z 0)))))) = true.
Proof.
  destruct (curr_moves_with_the_increment no_decimal
              (boot (bar_on pipe ":bar" (options_total 10)) (of_Z 0)) eq_refl)
    as (Hforward & Hbackward & Hupdate).
  split; [apply Hforward; reflexivity|].
  split; [apply Hbackward; reflexivity | apply Hupdate; reflexivity].
Defined.

Lemma update_is_tick_witness :
  curr (this (world_of
    (update no_decimal (Fin (1 # 2)) None
       (boot (bar_on pipe ":bar" (options_total 3)) (of_Z 0))))) = of_Z 1.
Proof.
  apply (update_is_tick no_decimal (Fin (1 # 2)) None
           (boot (bar_on pipe ":bar" (options_total 3)) (of_Z 0)));
    reflexivity.
Defined.


(** On that bar [render] throws the RangeError of [Array(-4)]. *)
Example negative_width_throws :
  bar_width (bar_on terminal ":bar" (options_width 10 (-5))) "" = of_Z (-5) /\
  returned (render no_decimal None
              (boot (bar_on terminal ":bar" (options_width 10 (-5))) (of_Z 0)))
    = false /\
  render_line no_decimal (bar_on terminal ":bar" (options_width 10 (-5))) (of_Z 0)
    = inl RangeError.
Proof. repeat split; reflexivity. Qed.


(** The line drawn for that bar. *)
Example half_done_line :
  render_line no_decimal half_done (of_Z 0) = inr "==--" /\
  log (drawn no_decimal) = [cursorTo 0; write "==--"; clearLine (Some 1%Z)].
Proof. split; reflexivity. Qed.

Lemma render_writes_only_a_new_line_witness :
  (log (world_of (render no_decimal None (drawn no_decimal)))
     = log (drawn no_decimal) /\
   lastDraw (this (world_of (render no_decimal None (drawn no_decimal))))
     = lastDraw (this (drawn no_decimal))) /\
  (log (world_of (render no_decimal None undrawn))
     = (log undrawn ++ [cursorTo 0; write "==--"; clearLine (Some 1%Z)])%list /\
   lastDraw (this (world_of (render no_decimal None undrawn))) = "==--").
Proof.
  split.
  - apply (render_writes_only_a_new_line no_decimal None (drawn no_decimal))
      with (str := "==--"); reflexivity.
  - apply (render_writes_only_a_new_line no_decimal None undrawn)
      with (str := "==--"); [reflexivity | reflexivity | discriminate].
Defined.

Lemma render_on_a_pipe_witness :
  render no_decimal (Some [("job", "copy")]) (ticked_pipe no_decimal)
    = Return tt
        (after_render_entry (Some [("job", "copy")]) (ticked_pipe no_decimal)) /\
  log (after_render_entry (Some [("job", "copy")]) (ticked_pipe no_decimal))
    = log (ticked_pipe no_decimal) /\
  renderThrottleTimeout
    (this (after_render_entry (Some [("job", "copy")]) (ticked_pipe no_decimal)))
    = None /\
  (forall h,
     renderThrottleTimeout (this (ticked_pipe no_decimal)) = Some h ->
     ~ In h (map fst (timers (after_render_entry (Some [("job", "copy")])
                                (ticked_pipe no_decimal))))) /\
  tokens (this (after_render_entry (Some [("job", "copy")]) (ticked_pipe no_decimal)))
    = [("job", "copy")].
Proof.
  apply (render_on_a_pipe no_decimal (Some [("job", "copy")])
           (ticked_pipe no_decimal)).
  reflexivity.
Defined.

(** The pending timer of that bar and the world after the call. *)
Example render_on_a_pipe_values :
  renderThrottleTimeout (this (ticked_pipe no_decimal)) = Some 1%nat /\
  timers (ticked_pipe no_decimal) = [(1%nat, of_Z 16)] /\
  timers (after_render_entry (Some [("job", "copy")]) (ticked_pipe no_decimal))
    = [] /\
  log (ticked_pipe no_decimal) = [].
Proof. repeat split; reflexivity. Qed.

(** * Instances of the further properties *)

Lemma mkUnits_ascending_witness :
  ascending (UnitTable.values (mkUnits defaultUnits)).
Proof.
  apply (mkUnits_ascending defaultUnits).
  intros kv Hin. simpl in Hin.
  destruct Hin as [<- | [<- | [<- | []]]]; reflexivity.
Defined.

Lemma mkUnits_of_ascending_witness :
  labels (mkUnits [("s", of_Z 1); ("m", of_Z 60)]) = ["s"; "m"] /\
  UnitTable.values (mkUnits [("s", of_Z 1); ("m", of_Z 60)])
    = [of_Z 1; of_Z 60].
Proof.
  apply (mkUnits_of_ascending [("s", of_Z 1); ("m", of_Z 60)]).
  intros i j Hij. simpl in Hij.
  destruct i as [|[|i]]; destruct j as [|[|j]]; try reflexivity; lia.
Defined.

Lemma constructed_bar_witness :
  curr (bar_on pipe ":bar" (options_total 10)) = of_Z 0 /\
  width (bar_on pipe ":bar" (options_total 10)) = of_Z 10 /\
  width (bar_on pipe ":bar" (options_width 10 20)) = of_Z 20 /\
  width (bar_on pipe ":bar" (options_width 10 0)) = of_Z 10.
Proof.
  destruct (constructed_bar (Some pipe) (Some ":bar")
              (arg_object (options_total 10))
              (bar_on pipe ":bar" (options_total 10)) eq_refl)
    as (Hc & _ & _ & _ & _ & _ & _ & _ & _ & _ & _ & _ & Hw).
  destruct (constructed_bar (Some pipe) (Some ":bar")
              (arg_object (options_width 10 20))
              (bar_on pipe ":bar" (options_width 10 20)) eq_refl)
    as (_ & _ & _ & _ & _ & _ & _ & _ & _ & _ & _ & _ & Hw20).
  destruct (constructed_bar (Some pipe) (Some ":bar")
              (arg_object (options_width 10 0))
              (bar_on pipe ":bar" (options_width 10 0)) eq_refl)
    as (_ & _ & _ & _ & _ & _ & _ & _ & _ & _ & _ & _ & Hw0).
  split; [exact Hc|]. split; [exact Hw|]. split; [exact Hw20 | exact Hw0].
Defined.

Lemma attainable_one_timer_witness : one_timer (ticked_pipe no_decimal).
Proof.
  apply (attainable_one_timer no_decimal).
  exists (Some pipe), (Some ":bar"), (arg_object (options_total 4)),
    (bar_on pipe ":bar" (options_total 4)), (of_Z 0), [host_call tick1].
  split; reflexivity.
Defined.

Lemma config_is_fixed_witness :
  same_config (bar_on pipe ":bar" (options_total 4))
    (this (world_of
       (act_all no_decimal
          [host_call tick1; host_log "halfway"; host_call (call_render None)]
          (boot (bar_on pipe ":bar" (options_total 4)) (of_Z 0))))).
Proof.
  apply (config_is_fixed no_decimal (Some pipe) (Some ":bar")
           (arg_object (options_total 4))).
  reflexivity.
Defined.

Lemma attainable_last_line_written_witness :
  last_line_written
    (world_of
       (act_all no_decimal
          [host_call (call_tick (len_number (of_Z 2)) None);
           host_call (call_render None)]
          (fresh terminal 4))).
Proof.
  apply (attainable_last_line_written no_decimal).
  exists (Some terminal), (Some ":bar"), (arg_object (options_total 4)),
    (bar_on terminal ":bar" (options_total 4)), (of_Z 0),
    [host_call (call_tick (len_number (of_Z 2)) None);
     host_call (call_render None)].
  split; reflexivity.
Defined.

(** The line of that world. *)
Example attainable_last_line :
  lastDraw (this (world_of
    (act_all no_decimal
       [host_call (call_tick (len_number (of_Z 2)) None);
        host_call (call_render None)]
       (fresh terminal 4)))) = "==--".
Proof. reflexivity. Qed.

Lemma tick_below_total_is_quiet_witness :
  exists w',
    tick no_decimal len_undefined None (fresh pipe 4) = Return tt w' /\
    log w' = log (fresh pipe 4) /\
    lastDraw (this w') = lastDraw (this (fresh pipe 4)) /\
    complete (this w') = complete (this (fresh pipe 4)) /\
    exists h delay,
      renderThrottleTimeout (this w') = Some h /\ timers w' = [(h, delay)].
Proof.
  apply (tick_below_total_is_quiet no_decimal len_undefined None (fresh pipe 4));
    vm_compute; reflexivity.
Defined.

Lemma tick_completes_on_a_pipe_witness :
  exists w',
    tick no_decimal len_undefined None (fresh pipe 1) = Return tt w' /\
    log w' = (log (fresh pipe 1)
              ++ [enter_terminate; write newline;
                  enter_callback (callback (this (fresh pipe 1)))])%list /\
    complete (this w') = true /\
    renderThrottleTimeout (this w') = None /\
    timers w' = [].
Proof.
  apply (tick_completes_on_a_pipe no_decimal len_undefined None (fresh pipe 1));
    vm_compute; reflexivity.
Defined.

Lemma render_twice_witness :
  render no_decimal None (drawn no_decimal) = Return tt (drawn no_decimal).
Proof.
  apply (render_twice no_decimal None undrawn (drawn no_decimal)).
  vm_compute. reflexivity.
Defined.

Lemma tick_completion_draws_final_state_witness :
  render_line no_decimal
    (this (world_of (tick no_decimal len_undefined None (fresh terminal 1))))
    (clock (world_of (tick no_decimal len_undefined None (fresh terminal 1))))
  = inr (lastDraw
           (this (world_of
              (tick no_decimal len_undefined None (fresh terminal 1))))) /\
  complete
    (this (world_of (tick no_decimal len_undefined None (fresh terminal 1))))
  = true /\
  renderThrottleTimeout
    (this (world_of (tick no_decimal len_undefined None (fresh terminal 1))))
  = None.
Proof.
  apply (tick_completion_draws_final_state no_decimal len_undefined None
           (fresh terminal 1)
           (world_of (tick no_decimal len_undefined None (fresh terminal 1))));
    vm_compute; reflexivity.
Defined.

(** The line on the screen after that call. *)
Example tick_completion_line :
  lastDraw
    (this (world_of (tick no_decimal len_undefined None (fresh terminal 1))))
  = "=".
Proof. vm_compute. reflexivity. Qed.

Lemma render_without_format_witness :
  new_ProgressBar (Some terminal) None (arg_number (of_Z 10)) = inr formatless /\
  render no_decimal None (boot formatless (of_Z 0))
  = Throw TypeError (after_render_entry None (boot formatless (of_Z 0))) /\
  exists w',
    tick no_decimal (len_number (of_Z 10)) None (boot formatless (of_Z 0))
    = Throw TypeError w' /\
    log w' = log (boot formatless (of_Z 0)) /\
    complete (this w') = complete (this (boot formatless (of_Z 0))).
Proof.
  split; [vm_compute; reflexivity|].
  destruct (render_without_format no_decimal None (boot formatless (of_Z 0)))
    as [Hrender Htick]; [vm_compute; reflexivity | vm_compute; reflexivity |].
  split; [exact Hrender|].
  apply (Htick (len_number (of_Z 10))). vm_compute. reflexivity.
Defined.


Lemma estimate_at_100_percent_witness :
  estimate no_decimal
    (set_curr (of_Z 100)
       (bar_on terminal ":eta:unit" (options_units 100 defaultUnits)))
    (of_Z 5000) (of_Z 100)
  = {| eta := None; value := Some "0.0";
       suffix := item (labels (units
         (set_curr (of_Z 100)
            (bar_on terminal ":eta:unit" (options_units 100 defaultUnits)))))
         0 |}.
Proof.
  apply (estimate_at_100_percent no_decimal
           (set_curr (of_Z 100)
              (bar_on terminal ":eta:unit" (options_units 100 defaultUnits)))
           (of_Z 5000) (of_Z 100)).
  - vm_compute. reflexivity.
  - intros j Hj.
    assert (Hj' : (1 <= j < 3)%nat) by exact Hj.
    destruct j as [|[|[|j]]]; try lia; vm_compute; reflexivity.
Defined.

(** The estimate of that instance. *)
Example estimate_at_100_percent_value :
  estimate no_decimal
    (set_curr (of_Z 100)
       (bar_on terminal ":eta:unit" (options_units 100 defaultUnits)))
    (of_Z 5000) (of_Z 100)
  = {| eta := None; value := Some "0.0"; suffix := Some "s" |}.
Proof. vm_compute. reflexivity. Qed.

Lemma update_sets_curr_witness :
  curr (this (world_of (update no_decimal (Fin (1 # 2)) None (fresh pipe 10))))
    = of_Z 5 /\
  curr (this (world_of
    (update no_decimal (Fin (1 # 2)) None
       (world_of (update no_decimal (Fin (1 # 2)) None (fresh pipe 10))))))
    = curr (this (world_of
        (update no_decimal (Fin (1 # 2)) None (fresh pipe 10)))).
Proof.
  apply (update_sets_curr no_decimal (Fin (1 # 2)) None None (fresh pipe 10)
           0 5);
    [vm_compute; reflexivity | vm_compute; discriminate
    | vm_compute; reflexivity | vm_compute; discriminate].
Defined.

Lemma update_to_one_completes_witness :
  curr (this (world_of (update no_decimal (of_Z 1) None (fresh pipe 3))))
    = of_Z 3 /\
  complete
    (this (world_of (update no_decimal (of_Z 1) None (fresh pipe 3)))) = true.
Proof.
  destruct (update_to_one_completes no_decimal None (fresh pipe 3) 0 3)
    as [Hcurr Hdone];
    [vm_compute; reflexivity | vm_compute; discriminate
    | vm_compute; reflexivity | vm_compute; discriminate |].
  split; [exact Hcurr|].
  apply (Hdone (world_of (update no_decimal (of_Z 1) None (fresh pipe 3)))).
  vm_compute. reflexivity.
Defined.

Lemma log_puts_the_bar_back_witness :
  bar_log "halfway" (drawn no_decimal)
    = Return tt (logged "halfway" (drawn no_decimal)) /\
  log (logged "halfway" (drawn no_decimal))
    = (log (drawn no_decimal)
       ++ [clearLine None; cursorTo 0; write ("halfway" ++ newline);
           write (lastDraw (this (drawn no_decimal)))])%list.
Proof.
  destruct (log_puts_the_bar_back no_decimal None "halfway" undrawn
              (drawn no_decimal))
    as (Hlog & _ & _ & Htty & _); [vm_compute; reflexivity|].
  split; [exact Hlog|].
  destruct Htty as [_ Hevents]; [vm_compute; reflexivity | exact Hevents].
Defined.

(** The output of that instance. *)
Example log_puts_the_bar_back_output :
  log (logged "halfway" (drawn no_decimal))
  = [cursorTo 0; write "==--"; clearLine (Some 1%Z);
     clearLine None; cursorTo 0; write ("halfway" ++ newline); write "==--"].
Proof. vm_compute. reflexivity. Qed.

Lemma format_without_colon_witness :
  render_line no_decimal plain_text (of_Z 0) = inr "working".
Proof.
  rewrite (format_without_colon no_decimal plain_text "working" (of_Z 0));
    vm_compute; reflexivity.
Defined.

Lemma tick_default_increment_witness :
  (curr (this (world_of
     (tick no_decimal (len_number (of_Z 0)) None (fresh pipe 4))))
   =? curr (this (fresh pipe 4)))%num = true.
Proof.
  destruct (tick_default_increment no_decimal None [] (fresh pipe 4))
    as (_ & _ & _ & _ & Hzero).
  apply Hzero. vm_compute. reflexivity.
Defined.
